(** * Element resolution core of [tir.technologies.core.base.Base]

    A shallow embedding of the element-resolution methods of the class
    [Base] (file [tir/technologies/core/base.py]): [search_zindex],
    [zindex_sort], [find_first_div_parent], [find_label_element],
    [filter_displayed_elements], [web_scrap], [element_exists] and
    [log_error], together with the parts of the Python string library, of
    BeautifulSoup and of Selenium that these methods call. *)

From Stdlib Require Import String Ascii List ZArith Lia Bool Arith.
From Stdlib Require Import Permutation Sorted.
Import ListNotations.

Set Warnings "-register-all".

(** ** Python exceptions and results

    A call either returns a value or raises.  An exception carries its class
    and the text that [str(e)] gives. *)

Inductive exn_class :=
| ValueError
| IndexError
| SelectorSyntaxError
| WebDriverException
| PyException
| AssertionError.

Record exn := mk_exn { exn_cls : exn_class; exn_msg : string }.

Inductive result (A : Type) :=
| Ok (a : A)
| Raise (e : exn).

Arguments Ok {A} a.
Arguments Raise {A} e.

Definition bind {A B} (r : result A) (k : A -> result B) : result B :=
  match r with
  | Ok a => k a
  | Raise e => Raise e
  end.

Notation "x <- c ;; k" := (bind c (fun x => k))
  (at level 61, c at next level, right associativity).

Fixpoint mapM {A B} (f : A -> result B) (l : list A) : result (list B) :=
  match l with
  | [] => Ok []
  | x :: l' => y <- f x ;; ys <- mapM f l' ;; Ok (y :: ys)
  end.

(** [enumerate(l)] *)
Definition enumerate {A} (l : list A) : list (nat * A) :=
  combine (seq 0 (length l)) l.

(** ** The Python string operations the methods use *)

Module PyStr.

Local Open Scope string_scope.
Local Open Scope list_scope.
Local Open Scope nat_scope.

(** The string of the bytes of the given values. *)
Definition bytes (l : list nat) : string :=
  fold_right (fun n s => String (ascii_of_nat n) s) EmptyString l.

(** A Python string is held as its UTF-8 text.  The white-space characters
    of Python 3, those of [str.isspace] and of the class [\s] of [re] on a
    [str]: U+0009 to U+000D, U+001C to U+0020, U+0085, U+00A0, U+1680,
    U+2000 to U+200A, U+2028, U+2029, U+202F, U+205F and U+3000. *)
Definition whitespace : list string :=
  map bytes
      [[9]; [10]; [11]; [12]; [13]; [28]; [29]; [30]; [31]; [32];
       [194; 133]; [194; 160]; [225; 154; 128];
       [226; 128; 128]; [226; 128; 129]; [226; 128; 130]; [226; 128; 131];
       [226; 128; 132]; [226; 128; 133]; [226; 128; 134]; [226; 128; 135];
       [226; 128; 136]; [226; 128; 137]; [226; 128; 138];
       [226; 128; 168]; [226; 128; 169]; [226; 128; 175];
       [226; 129; 159]; [227; 128; 128]].

(** [s] without the leading [p], when [s] starts with [p]. *)
Fixpoint strip_prefix (p s : string) : option string :=
  match p, s with
  | EmptyString, _ => Some s
  | String a p', String b s' =>
      if Ascii.eqb a b then strip_prefix p' s' else None
  | String _ _, EmptyString => None
  end.

(** [s] without its first character, when that is one of [chars]. *)
Definition drop_one (chars : list string) (s : string) : option string :=
  fold_right (fun c found => match strip_prefix c s with
                             | Some rest => Some rest
                             | None => found
                             end) None chars.

(** Dropping leading characters of [chars] as long as there are some;
    [fuel] bounds the number of characters dropped. *)
Fixpoint drop_all (chars : list string) (fuel : nat) (s : string) : string :=
  match fuel with
  | O => s
  | S fuel' =>
      match drop_one chars s with
      | Some rest => drop_all chars fuel' rest
      | None => s
      end
  end.

Fixpoint reverse (s : string) : string :=
  match s with
  | EmptyString => EmptyString
  | String c s' => reverse s' ++ String c EmptyString
  end.

(** [s.lstrip()] and [s.rstrip()], the second on the reversed text. *)
Definition lstrip (s : string) : string :=
  drop_all whitespace (String.length s) s.

Definition rstrip (s : string) : string :=
  reverse (drop_all (map reverse whitespace) (String.length s) (reverse s)).

(** [s.strip()] *)
Definition strip (s : string) : string := rstrip (lstrip s).

(** [sub in s] *)
Fixpoint contains (sub s : string) : bool :=
  String.prefix sub s ||
  match s with
  | EmptyString => false
  | String _ s' => contains sub s'
  end.

(** [c in s] for one character. *)
Fixpoint has_char (c : ascii) (s : string) : bool :=
  match s with
  | EmptyString => false
  | String d s' => Ascii.eqb c d || has_char c s'
  end.

(** [s.split(sep)] for a non-empty [sep]: the pieces between the
    non-overlapping occurrences of [sep], scanned from the left.  [skip]
    counts the characters of an occurrence still to be passed over. *)
Fixpoint split_go (sep : string) (skip : nat) (s : string) : list string :=
  match s with
  | EmptyString => [EmptyString]
  | String c s' =>
      match skip with
      | S k => split_go sep k s'
      | O =>
          if String.prefix sep s
          then EmptyString :: split_go sep (String.length sep - 1) s'
          else match split_go sep 0 s' with
               | piece :: rest => String c piece :: rest
               | [] => [String c EmptyString]
               end
      end
  end.

Definition split (sep s : string) : list string := split_go sep 0 s.

(** [int(s)], given the value that [int] reads in a text, [None] where it
    reads none and raises [ValueError]. *)
Definition int (value : string -> option Z) (s : string) : result Z :=
  match value s with
  | Some z => Ok z
  | None =>
      Raise (mk_exn ValueError
               ("invalid literal for int() with base 10: '" ++ s ++ "'")%string)
  end.

End PyStr.

(** ** Regular expressions

    The part of [re] the pattern of [find_label_element] needs.  A match is
    computed by derivatives: the expression is rewritten for each
    character read, and the text is accepted when what is left accepts
    the empty text. *)

Module Re.

Local Open Scope string_scope.
Local Open Scope list_scope.

Inductive regex :=
| Void
| Eps
| Chr (c : ascii)
| Cat (r1 r2 : regex)
| Alt (r1 r2 : regex)
| Star (r : regex).

Fixpoint nullable (r : regex) : bool :=
  match r with
  | Void => false
  | Eps => true
  | Chr _ => false
  | Cat r1 r2 => nullable r1 && nullable r2
  | Alt r1 r2 => nullable r1 || nullable r2
  | Star _ => true
  end.

Fixpoint deriv (c : ascii) (r : regex) : regex :=
  match r with
  | Void => Void
  | Eps => Void
  | Chr d => if Ascii.eqb c d then Eps else Void
  | Cat r1 r2 =>
      if nullable r1
      then Alt (Cat (deriv c r1) r2) (deriv c r2)
      else Cat (deriv c r1) r2
  | Alt r1 r2 => Alt (deriv c r1) (deriv c r2)
  | Star r' => Cat (deriv c r') (Star r')
  end.

(** The whole text is matched. *)
Fixpoint matches (r : regex) (s : string) : bool :=
  match s with
  | EmptyString => nullable r
  | String c s' => matches (deriv c r) s'
  end.

(** A literal text, as [re.escape] makes it. *)
Fixpoint lit (s : string) : regex :=
  match s with
  | EmptyString => Eps
  | String c s' => Cat (Chr c) (lit s')
  end.

(** One of the given characters. *)
Definition any_of (chars : list string) : regex :=
  fold_right (fun c r => Alt (lit c) r) Void chars.

(** [r?] and [r+] *)
Definition opt (r : regex) : regex := Alt Eps r.

Definition plus (r : regex) : regex := Cat r (Star r).

(** [\s] *)
Definition space : regex := any_of PyStr.whitespace.

(** [$] as the last item of a pattern: the end of the text, or a line feed
    that ends the text. *)
Definition dollar : regex := opt (Chr "010").

End Re.

(** ** The BeautifulSoup tree

    A parsed document is a tree of tags and strings.  A Python reference to
    one of its objects is a tree together with the position of the object in
    it, so that the parent and the siblings of the object can be reached as
    bs4 reaches them. *)

Module Soup.

Local Open Scope string_scope.
Local Open Scope list_scope.
Local Open Scope nat_scope.

Inductive node :=
| Tag (name : string) (attrs : list (string * string)) (contents : list node)
| NavigableString (s : string).

(** Child indices from the root of the tree. *)
Definition path := list nat.

Fixpoint get (n : node) (p : path) : option node :=
  match p with
  | [] => Some n
  | i :: p' =>
      match n with
      | Tag _ _ cs =>
          match nth_error cs i with
          | Some c => get c p'
          | None => None
          end
      | NavigableString _ => None
      end
  end.

Record PageElement := mk_elt { soup : node; loc : path }.

Definition here (e : PageElement) : option node := get (soup e) (loc e).

(** [e.name]: the tag name; [None] on a string, as in bs4. *)
Definition name (e : PageElement) : option string :=
  match here e with
  | Some (Tag n _ _) => Some n
  | _ => None
  end.

(** [e.attrs], which only tags have. *)
Definition attrs (e : PageElement) : option (list (string * string)) :=
  match here e with
  | Some (Tag _ a _) => Some a
  | _ => None
  end.

(** Lookup in the attribute dictionary. *)
Fixpoint lookup (k : string) (d : list (string * string)) : option string :=
  match d with
  | [] => None
  | (k', v) :: d' => if String.eqb k k' then Some v else lookup k d'
  end.

Definition is_tag (e : PageElement) : bool :=
  match here e with
  | Some (Tag _ _ _) => true
  | _ => false
  end.

(** [e.find_parent()]: [None] above the root. *)
Definition find_parent (e : PageElement) : option PageElement :=
  match loc e with
  | [] => None
  | _ :: _ => Some (mk_elt (soup e) (removelast (loc e)))
  end.

(** The positions below a node, in document order: each child, followed by
    what is below it. *)
Fixpoint subpaths (n : node) : list path :=
  match n with
  | NavigableString _ => []
  | Tag _ _ cs =>
      flat_map (fun below => [fst below] :: map (cons (fst below)) (snd below))
               (enumerate (map subpaths cs))
  end.

(** [e.descendants] *)
Definition descendants (e : PageElement) : list PageElement :=
  match here e with
  | Some n => map (fun p => mk_elt (soup e) (loc e ++ p)) (subpaths n)
  | None => []
  end.

(** [e.next_siblings] *)
Definition next_siblings (e : PageElement) : list PageElement :=
  match rev (loc e) with
  | [] => []
  | i :: rp =>
      match get (soup e) (rev rp) with
      | Some (Tag _ _ cs) =>
          map (fun j => mk_elt (soup e) (rev rp ++ [j]))
              (seq (S i) (length cs - S i))
      | _ => []
      end
  end.

(** [e.name == tag] *)
Definition has_name (tag : string) (e : PageElement) : bool :=
  match name e with
  | Some n => String.eqb n tag
  | None => false
  end.

(** [e.find_next_sibling(tag)]: the first following sibling that is a tag
    of that name. *)
Definition find_next_sibling (tag : string) (e : PageElement)
  : option PageElement :=
  find (has_name tag) (next_siblings e).

(** [e.find_all(text=pattern)]: the strings below [e] that the pattern
    accepts, in document order. *)
Definition find_all_text (pattern : string -> bool) (e : PageElement)
  : list PageElement :=
  filter (fun d => match here d with
                   | Some (NavigableString s) => pattern s
                   | _ => false
                   end) (descendants e).

Fixpoint node_text (n : node) : string :=
  match n with
  | NavigableString s => s
  | Tag _ _ cs => fold_right (fun c acc => (node_text c ++ acc)%string) "" cs
  end.

(** [e.text] *)
Definition text (e : PageElement) : string :=
  match here e with
  | Some n => node_text n
  | None => ""
  end.

End Soup.

Import Soup.

Local Open Scope string_scope.
Local Open Scope list_scope.
Local Open Scope Z_scope.

Section Builtins.

(** Two builtins answer from the tables of the Unicode database, which
    are not written out here: [int], taken as the value it reads in a text
    ([None] where it raises [ValueError]), and the case folding of
    [str.lower]. *)
Variable int_value : string -> option Z.
Variable case_folding : string -> string.

(** [str.lower]: the empty text has no character to fold, any other text
    is folded by the tables. *)
Definition lower (s : string) : string :=
  match s with
  | EmptyString => EmptyString
  | String _ _ => case_folding s
  end.

(** ** Z-index of an element and ranking *)

(** [search_zindex]: the style is looked at only when the element has
    attributes, a style among them, and the marker in the style. *)
Definition search_zindex (element : PageElement) : result Z :=
  match attrs element with
  | Some a =>
      match lookup "style" a with
      | Some style =>
          if PyStr.contains "z-index:" style
          then PyStr.int int_value
                 (PyStr.strip
                    (nth 0 (PyStr.split ";"
                              (nth 1 (PyStr.split "z-index:" style) ""))
                         ""))
          else Ok 0
      | None => Ok 0
      end
  | None => Ok 0
  end.

(** The key-decorated stable sort behind [list.sort]: an element goes in
    front of the first element whose key is not smaller. *)
Fixpoint insert_keyed {A} (k : Z) (x : A) (l : list (Z * A)) : list (Z * A) :=
  match l with
  | [] => [(k, x)]
  | (k', y) :: l' =>
      if k <=? k' then (k, x) :: l else (k', y) :: insert_keyed k x l'
  end.

Fixpoint sort_keyed {A} (l : list (Z * A)) : list (Z * A) :=
  match l with
  | [] => []
  | (k, x) :: l' => insert_keyed k x (sort_keyed l')
  end.

(** [l.sort(key=key, reverse=reverse)]: the keys are computed first, and a
    key that raises aborts the sort; a reversed sort reverses the list,
    sorts it and reverses the outcome, as CPython does. *)
Definition list_sort {A} (key : A -> result Z) (reverse : bool) (l : list A)
  : result (list A) :=
  keys <- mapM key l ;;
  let keyed := combine keys l in
  Ok (map snd (if reverse
               then rev (sort_keyed (rev keyed))
               else sort_keyed keyed)).

(** [zindex_sort]: the sort is by [search_zindex]; the sorted list is the
    one handed back. *)
Definition zindex_sort (elements : list PageElement) (reverse : bool)
  : result (list PageElement) :=
  list_sort search_zindex reverse elements.

(** ** Label lookup *)

(** [e.name != "div"] fails exactly on a tag called div. *)
Definition is_div (e : PageElement) : bool := has_name "div" e.

(** The loop of [find_first_div_parent].  [None] is Python's [None], the
    only value met here without a [name]; [fuel] bounds the iterations. *)
Fixpoint find_first_div_parent_loop (fuel : nat) (current : option PageElement)
  : option PageElement :=
  match current with
  | None => None
  | Some c =>
      if is_div c then current
      else match fuel with
           | O => current
           | S fuel' => find_first_div_parent_loop fuel' (find_parent c)
           end
  end.

Definition find_first_div_parent (element : PageElement)
  : option PageElement :=
  find_first_div_parent_loop (S (length (loc element))) (Some element).

(** The pattern ["^" + re.escape(label_text) + "\*?\s+$"]. *)
Definition label_regex (label_text : string) : Re.regex :=
  Re.Cat (Re.lit label_text)
         (Re.Cat (Re.opt (Re.Chr "*"))
                 (Re.Cat (Re.plus Re.space) Re.dollar)).

(** [re.compile(pattern).search] for this pattern: as it starts with [^] and
    ends with [$], the search succeeds when the whole text is matched. *)
Definition label_pattern (label_text s : string) : bool :=
  Re.matches (label_regex label_text) s.

Definition find_label_element (label_text : string) (container : PageElement)
  : list PageElement :=
  match hd_error (map find_first_div_parent
                    (find_all_text (label_pattern label_text) container)) with
  | None => []
  | Some None => []
  | Some (Some element) =>
      match find_next_sibling "input" element with
      | Some next_sibling => [next_sibling]
      | None => []
      end
  end.

(** ** The browser *)

Definition WebElement := nat.

(** What a script hands back through Selenium. *)
Inductive pyval :=
| PNone
| PBool (b : bool)
| PInt (z : Z)
| PStr (s : string)
| PList (l : list pyval)
| PDict (d : list (string * pyval))
| PWebElement (h : WebElement).

(** [bool(v)] *)
Definition truthy (v : pyval) : bool :=
  match v with
  | PNone => false
  | PBool b => b
  | PInt z => negb (z =? 0)
  | PStr s => negb (String.eqb s "")
  | PList l => match l with [] => false | _ :: _ => true end
  | PDict d => match d with [] => false | _ :: _ => true end
  | PWebElement _ => true
  end.

Inductive By := CSS_SELECTOR_BY | XPATH_BY.

(** The Selenium driver during one call.  [page_source] is the document the
    first read gives, already parsed, and [later_sources] are the documents
    the reads after it give until the deadline of [web_scrap] passes.
    [find_elements] searches the whole live document. *)
Record WebDriver := {
  page_source : node;
  later_sources : list node;
  find_element_by_xpath : string -> result WebElement;
  find_elements : By -> string -> result (list WebElement);
  is_displayed : WebElement -> result bool;
  execute_script : string -> result pyval
}.

(** Modelled from the spec: the enumeration [enum.ScrapType] of
    [tir.technologies.core.enumerations], which is not among the sources; its
    members are the five search strategies, under the names [base.py] uses. *)
Inductive ScrapType := TEXT | XPATH | CSS_SELECTOR | MIXED | SCRIPT.

Inductive log_event :=
| new_line (passed : bool) (msg : string)
| save_file.

Definition Log := list log_event.

(** The fields of [self] the methods read.  [test_function] is the name of
    the innermost running function whose name contains [test_]. *)
Record Base := {
  driver : WebDriver;
  base_container : string;
  test_function : option string
}.

(** What [web_scrap] returns in a list: elements of the snapshot, or the
    values of a script. *)
Inductive item :=
| Element (e : PageElement)
| Value (v : pyval).

Fixpoint filterM {A} (p : A -> result bool) (l : list A) : result (list A) :=
  match l with
  | [] => Ok []
  | x :: l' =>
      b <- p x ;; r <- filterM p l' ;; Ok (if b then x :: r else r)
  end.

(** [len(l) > 0] for position 0, [len(l) >= position] otherwise. *)
Definition position_reached (len : nat) (position : Z) : bool :=
  if position =? 0 then 0 <? Z.of_nat len else position <=? Z.of_nat len.

Section Methods.

(** The selector engine of bs4: a selector compiles to a test on tags, or is
    refused. *)
Variable css : string -> option (PageElement -> bool).

(** [xpath_soup] of [tir.technologies.core.third_party.xpath_soup]. *)
Variable xpath_soup : PageElement -> string.

(** [e.select(selector)]: the tags below [e] that match, in document
    order. *)
Definition select (selector : string) (e : PageElement)
  : result (list PageElement) :=
  match css selector with
  | Some matches =>
      Ok (filter (fun d => is_tag d && matches d) (descendants e))
  | None =>
      Raise (mk_exn SelectorSyntaxError
               ("Invalid selector: " ++ selector)%string)
  end.

Variable self : Base.

(** [log_error]: the line goes to the log, the log is saved, and
    [assertTrue(False, ...)] raises; the method never returns. *)
Definition log_error (message : string) (new_log_line : bool) (log : Log)
  : exn * Log :=
  match test_function self with
  | None => (mk_exn IndexError "list index out of range", log)
  | Some f =>
      let stack := last (PyStr.split "_" f) "" in
      let log_message := (stack ++ " - " ++ message)%string in
      let log1 := if new_log_line
                  then log ++ [new_line false log_message]
                  else log in
      (mk_exn AssertionError ("False is not true : " ++ log_message)%string,
       log1 ++ [save_file])
  end.

(** The topmost container of one snapshot:
    [next(iter(zindex_sort(soup.select(selector), reverse=True)), None)]. *)
Definition topmost_container (container_selector : string) (soup : node)
  : result (option PageElement) :=
  found <- select container_selector (mk_elt soup []) ;;
  containers <- zindex_sort found true ;;
  Ok (hd_error containers).

(** The loop of [web_scrap]: one snapshot per turn, until a container is
    found or the deadline has passed. *)
Fixpoint poll_container (container_selector : string) (sources : list node)
  : result (option PageElement) :=
  match sources with
  | [] => Ok None
  | soup :: later =>
      c <- topmost_container container_selector soup ;;
      match c with
      | Some _ => Ok c
      | None => poll_container container_selector later
      end
  end.

Definition text_contains (term : string) (x : PageElement) : bool :=
  PyStr.contains (lower term) (lower (text x)).

(** The [try] block of [web_scrap].  The dump of the snapshot to a file is
    left out: it is written only when [config.log_file] is set, and
    [__init__] clears it. *)
Definition web_scrap_try (term : string) (scrap_type : ScrapType)
    (optional_term : option string) (label : bool)
    (main_container : option string) : result (list item) :=
  let container_selector :=
    match main_container with
    | Some m => m
    | None => base_container self
    end in
  c <- poll_container container_selector
         (page_source (driver self) :: later_sources (driver self)) ;;
  match c with
  | None => Raise (mk_exn PyException "Couldn't find container")
  | Some container =>
      match scrap_type with
      | TEXT =>
          if label
          then Ok (map Element (find_label_element term container))
          else found <- select "div > *" container ;;
               Ok (map Element (filter (text_contains term) found))
      | CSS_SELECTOR =>
          found <- select term container ;; Ok (map Element found)
      | MIXED =>
          match optional_term with
          | Some selector =>
              found <- select selector container ;;
              Ok (map Element (filter (text_contains term) found))
          | None => Ok []
          end
      | SCRIPT =>
          script_result <- execute_script (driver self) term ;;
          Ok (match script_result with
              | PList l => map Value l
              | _ => []
              end)
      | XPATH => Ok []
      end
  end.

(** [web_scrap]: whatever the [try] block raises is handed to
    [log_error]. *)
Definition web_scrap (term : string) (scrap_type : ScrapType)
    (optional_term : option string) (label : bool)
    (main_container : option string) (log : Log)
  : result (list item) * Log :=
  match web_scrap_try term scrap_type optional_term label main_container with
  | Ok l => (Ok l, log)
  | Raise e =>
      let (e', log') := log_error (exn_msg e) true log in (Raise e', log')
  end.

(** The branch of [element_exists] for the selector strategies. *)
Definition element_exists_by (by_ : By) (selector : string)
    (main_container : option string) (position : Z) : result bool :=
  let soup := page_source (driver self) in
  let container_selector :=
    match main_container with
    | Some m => m
    | None => base_container self
    end in
  c <- topmost_container container_selector soup ;;
  match c with
  | None => Ok false
  | Some container =>
      match find_element_by_xpath (driver self) (xpath_soup container) with
      | Raise _ => Ok false
      | Ok container_element =>
          element_list <- find_elements (driver self) by_ selector ;;
          Ok (position_reached (length element_list) position)
      end
  end.

(** [element_exists]; the line printed to the console is left out. *)
Definition element_exists (term : string) (scrap_type : ScrapType)
    (position : Z) (optional_term : option string)
    (main_container : option string) (log : Log) : result bool * Log :=
  match scrap_type with
  | SCRIPT =>
      (r <- execute_script (driver self) term ;; Ok (truthy r), log)
  | CSS_SELECTOR =>
      (element_exists_by CSS_SELECTOR_BY term main_container position, log)
  | XPATH =>
      (element_exists_by XPATH_BY term main_container position, log)
  | TEXT | MIXED =>
      match web_scrap term scrap_type optional_term false main_container log
      with
      | (Ok element_list, log') =>
          (Ok (position_reached (length element_list) position), log')
      | (Raise e, log') => (Raise e, log')
      end
  end.

(** [filter_displayed_elements] *)
Definition filter_displayed_elements (elements : list PageElement)
    (reverse : bool) : result (list PageElement) :=
  let indexed_elements := enumerate elements in
  selenium_elements <-
    mapM (fun x => find_element_by_xpath (driver self) (xpath_soup x))
         elements ;;
  let indexed_selenium_elements := enumerate selenium_elements in
  displayed <-
    filterM (fun x => is_displayed (driver self) (snd x))
            indexed_selenium_elements ;;
  let filtered_selenium_indexes := map fst displayed in
  let filtered_elements :=
    map snd
        (filter (fun x => existsb (Nat.eqb (fst x)) filtered_selenium_indexes)
                indexed_elements) in
  zindex_sort filtered_elements reverse.

End Methods.

(** ** The verdict of a test case *)

(** [assertTrue(expr, msg)] and [assertFalse(expr, msg)] of [unittest]. *)
Definition assertTrue (expr : bool) (msg : string) : result unit :=
  if expr then Ok tt
  else Raise (mk_exn AssertionError ("False is not true : " ++ msg)%string).

Definition assertFalse (expr : bool) (msg : string) : result unit :=
  if expr
  then Raise (mk_exn AssertionError ("True is not false : " ++ msg)%string)
  else Ok tt.

Section Fields.

(** The values a test compares, and [str] on them. *)
Variable value : Type.
Variable str : value -> string.

(** [compare_field_values], on the list [self.errors]. *)
Definition compare_field_values (field : string)
    (user_value captured_value : value) (message : string)
    (errors : list string) : list string :=
  if negb (String.eqb (PyStr.strip (str user_value))
                      (PyStr.strip (str captured_value)))
  then errors ++ [message]
  else errors.

End Fields.

Arguments compare_field_values {value} str field user_value captured_value
  message errors.

(** [assert_result], on [self.errors] and the log; it hands back the
    outcome of the final assertion, the error list and the log.  The
    time stamp of the log and the line printed to the console are left
    out. *)
Definition assert_result (self : Base) (expected : bool)
    (errors : list string) (log : Log)
  : result unit * (list string * Log) :=
  let expected_assert := expected in
  match test_function self with
  | None => (Raise (mk_exn IndexError "list index out of range"), (errors, log))
  | Some f =>
      let stack := last (PyStr.split "_" f) "" in
      let log_message := (stack ++ " - ")%string in
      let '(expected, msg, log1) :=
        match errors with
        | _ :: _ =>
            let log_message :=
              fold_left (fun m field_msg => (m ++ " " ++ field_msg)%string)
                        errors log_message in
            (negb expected, log_message,
             log ++ [new_line false log_message])
        | [] => (expected, "Passed", log ++ [new_line true ""])
        end in
      let log2 := log1 ++ [save_file] in
      (if expected_assert
       then assertTrue expected msg
       else assertFalse expected msg,
       ([], log2))
  end.

(** [AssertTrue] and [AssertFalse] *)
Definition AssertTrue (self : Base) := assert_result self true.

Definition AssertFalse (self : Base) := assert_result self false.

(** ** Combo boxes *)

Section Combo.

Variable self : Base.

(** [Select(element).options], as the texts of the options, and
    [Select(element).select_by_visible_text(text)]. *)
Variable option_texts : WebElement -> result (list string).
Variable select_by_visible_text : WebElement -> string -> result unit.

(** [select_combo]; the two pauses of one second are left out. *)
Definition select_combo (id value : string) : result string :=
  combo <- find_element_by_xpath (driver self)
             ("//div[@id='" ++ id ++ "']/select")%string ;;
  options <- option_texts combo ;;
  let value :=
    match find (fun text =>
                  String.eqb value (substring 0 (String.length value) text))
               options with
    | Some text => text
    | None => value
    end in
  done <- select_by_visible_text combo value ;;
  Ok value.

End Combo.

(** ** Notions used to state the properties *)

(** No occurrence of [sep] in [a ++ rest] starts at a position of [a]. *)
Fixpoint no_start_within (sep a rest : string) : bool :=
  match a with
  | EmptyString => true
  | String _ a' =>
      negb (String.prefix sep (a ++ rest)) && no_start_within sep a' rest
  end.

(** The key of an element under a key function that may raise, with 0 where
    it raises. *)
Definition key_of {A} (key : A -> result Z) (x : A) : Z :=
  match key x with
  | Ok z => z
  | Raise _ => 0
  end.

Definition key_le {A} (p q : Z * A) : Prop := fst p <= fst q.

Definition has_key {A} (z : Z) (p : Z * A) : bool := fst p =? z.

(** An element with its key. *)
Definition decorate {A} (key : A -> result Z) (x : A) : Z * A :=
  (key_of key x, x).

(** The order [list.sort] puts a keyed list in. *)
Definition ordered {A} (reverse : bool) (l : list (Z * A)) : list (Z * A) :=
  if reverse then rev (sort_keyed (rev l)) else sort_keyed l.

(** Non-decreasing keys, or non-increasing keys for a reversed sort. *)
Definition in_order {A} (key : A -> result Z) (reverse : bool) (x y : A)
  : Prop :=
  if reverse then key_of key y <= key_of key x
  else key_of key x <= key_of key y.

(** The derived z-index of an element. *)
Definition zindex_of (e : PageElement) : Z := key_of search_zindex e.

(** [search_zindex] returns on the element. *)
Definition has_zindex (e : PageElement) : bool :=
  match search_zindex e with
  | Ok _ => true
  | Raise _ => false
  end.

(** The texts a regular expression stands for. *)
Inductive denotes : Re.regex -> string -> Prop :=
| denotes_eps : denotes Re.Eps ""
| denotes_chr c : denotes (Re.Chr c) (String c "")
| denotes_cat r1 r2 s1 s2 :
    denotes r1 s1 -> denotes r2 s2 -> denotes (Re.Cat r1 r2) (s1 ++ s2)
| denotes_alt_l r1 r2 s : denotes r1 s -> denotes (Re.Alt r1 r2) s
| denotes_alt_r r1 r2 s : denotes r2 s -> denotes (Re.Alt r1 r2) s
| denotes_star_nil r : denotes (Re.Star r) ""
| denotes_star_cons r s1 s2 :
    denotes r s1 -> denotes (Re.Star r) s2 -> denotes (Re.Star r) (s1 ++ s2).

(** A text made of characters of [chars] only, possibly none. *)
Inductive blank_of (chars : list string) : string -> Prop :=
| blank_nil : blank_of chars ""
| blank_cons w s :
    In w chars -> blank_of chars s -> blank_of chars (w ++ s).

Definition blank : string -> Prop := blank_of PyStr.whitespace.

(** The first characters of two texts are the same. *)
Definition same_head (s t : string) : bool :=
  match s, t with
  | String a _, String b _ => Ascii.eqb a b
  | _, _ => false
  end.

(** The ends of a text, after its first character and before its end. *)
Fixpoint proper_tails (s : string) : list string :=
  match s with
  | String _ (String _ _ as s') => s' :: proper_tails s'
  | _ => []
  end.

(** Two texts that are one text with white space around it. *)
Definition same_but_padding (s t : string) : Prop :=
  exists m a b c d,
    blank a /\ blank b /\ blank c /\ blank d /\
    s = (a ++ m ++ b)%string /\ t = (c ++ m ++ d)%string.

(** A text of one or more white-space characters. *)
Inductive spaces : string -> Prop :=
| spaces_one w : In w PyStr.whitespace -> spaces w
| spaces_more w s :
    In w PyStr.whitespace -> spaces s -> spaces (w ++ s).

(** [a] is [e] or an ancestor of [e]. *)
Definition ancestor_or_self (a e : PageElement) : Prop :=
  soup a = soup e /\ exists q, loc e = loc a ++ q.

(** [d] is the nearest div among [e] and its ancestors. *)
Definition nearest_div (d e : PageElement) : Prop :=
  ancestor_or_self d e /\ is_div d = true /\
  forall a, ancestor_or_self a e -> ancestor_or_self d a ->
            is_div a = true -> a = d.

Definition no_div_above (e : PageElement) : Prop :=
  forall a, ancestor_or_self a e -> is_div a = false.

(** The sibling of [e] at child index [j] of their parent. *)
Definition sibling_at (e : PageElement) (j : nat) : PageElement :=
  mk_elt (soup e) (removelast (loc e) ++ [j]).

(** [s] is the first input tag among the siblings that follow [d], at
    whatever distance. *)
Definition first_input_after (d s : PageElement) : Prop :=
  exists i j,
    loc d = removelast (loc d) ++ [i] /\ (i < j)%nat /\
    s = sibling_at d j /\ has_name "input" s = true /\
    forall k, (i < k < j)%nat -> has_name "input" (sibling_at d k) = false.

Definition no_input_after (d : PageElement) : Prop :=
  forall i k, loc d = removelast (loc d) ++ [i] -> (i < k)%nat ->
              has_name "input" (sibling_at d k) = false.

(** The selector of the container and the snapshots a call polls. *)
Definition container_selector_of (self : Base) (main_container : option string)
  : string :=
  match main_container with
  | Some m => m
  | None => base_container self
  end.

Definition sources_of (self : Base) : list node :=
  page_source (driver self) :: later_sources (driver self).

(** What [log_error] leaves behind for a message, inside the test [f]: the
    assertion failure and the log with one failed line, saved. *)
Definition failure_report (f message : string) (log : Log)
  : result (list item) * Log :=
  let line := (last (PyStr.split "_" f) "" ++ " - " ++ message)%string in
  (Raise (mk_exn AssertionError ("False is not true : " ++ line)%string),
   log ++ [new_line false line; save_file]).

(** [x] is in the tree of [e], strictly below it. *)
Definition below (x e : PageElement) : Prop :=
  soup x = soup e /\ exists q, q <> [] /\ loc x = loc e ++ q.

(** The tags below a container that a compiled selector accepts. *)
Definition selected (matches : PageElement -> bool) (container : PageElement)
  : list PageElement :=
  filter (fun d => is_tag d && matches d) (descendants container).

(** Whether the element resolves to a live handle that is displayed. *)
Definition displayed_in (xpath_soup : PageElement -> string) (d : WebDriver)
    (x : PageElement) : result bool :=
  h <- find_element_by_xpath d (xpath_soup x) ;; is_displayed d h.

Definition shown (xpath_soup : PageElement -> string) (d : WebDriver)
    (x : PageElement) : bool :=
  match displayed_in xpath_soup d x with
  | Ok b => b
  | Raise _ => false
  end.

(** *** The builtins on plain text, to run the methods

    [int] on a text of ASCII characters: an optional sign and ASCII digits,
    with single underscores allowed between two digits, white space around
    them left aside.  [str.lower] on a text of Basic Latin and Latin-1
    letters. *)

Definition ascii_digit (c : ascii) : option Z :=
  let n := nat_of_ascii c in
  if ((48 <=? n) && (n <=? 57))%nat then Some (Z.of_nat (n - 48)) else None.

Fixpoint ascii_digits (acc : Z) (after_digit : bool) (s : string) : option Z :=
  match s with
  | EmptyString => if after_digit then Some acc else None
  | String c s' =>
      if Ascii.eqb c "_"
      then (if after_digit then ascii_digits acc false s' else None)
      else match ascii_digit c with
           | Some d => ascii_digits (10 * acc + d) true s'
           | None => None
           end
  end.

Definition ascii_int (s : string) : option Z :=
  match PyStr.strip s with
  | String c s' =>
      if Ascii.eqb c "+" then ascii_digits 0 false s'
      else if Ascii.eqb c "-" then option_map Z.opp (ascii_digits 0 false s')
      else ascii_digits 0 false (String c s')
  | EmptyString => None
  end.

Fixpoint latin_lower (s : string) : string :=
  match s with
  | EmptyString => EmptyString
  | String c s' =>
      let n := nat_of_ascii c in
      if ((65 <=? n) && (n <=? 90))%nat
      then String (ascii_of_nat (n + 32)) (latin_lower s')
      else match s' with
           | String d s'' =>
               let m := nat_of_ascii d in
               if ((n =? 195) && (128 <=? m) && (m <=? 158)
                   && negb (m =? 151))%nat
               then String c (String (ascii_of_nat (m + 32)) (latin_lower s''))
               else String c (latin_lower s')
           | EmptyString => String c EmptyString
           end
  end.

(** *** A small browser to run the methods on

    Selectors are a tag name or a dot and a class; the path expression of an
    element spells its child indices; the live document is the page itself,
    a handle is the rank of an element in document order, and a tag is
    displayed unless it has a [hidden] attribute. *)

Definition simple_css (selector : string) : option (PageElement -> bool) :=
  match selector with
  | EmptyString => None
  | String c cls =>
      if Ascii.eqb c "."
      then Some (fun e => match attrs e with
                          | Some a => match lookup "class" a with
                                      | Some v => String.eqb v cls
                                      | None => false
                                      end
                          | None => false
                          end)
      else Some (has_name selector)
  end.

Fixpoint index_path (p : path) : string :=
  match p with
  | [] => EmptyString
  | i :: p' => String "/" (String (ascii_of_nat (48 + i)) (index_path p'))
  end.

Definition path_xpath (e : PageElement) : string := index_path (loc e).

Definition all_elements (page : node) : list PageElement :=
  mk_elt page [] :: descendants (mk_elt page []).

(** The ranks of the elements that pass a test. *)
Definition ranks_where (test : PageElement -> bool) (page : node)
  : list WebElement :=
  map fst (filter (fun x => test (snd x)) (enumerate (all_elements page))).

Definition still_browser (page : node) (script : result pyval) : WebDriver :=
  {| page_source := page;
     later_sources := [];
     find_element_by_xpath := fun x =>
       match ranks_where (fun e => String.eqb (path_xpath e) x) page with
       | h :: _ => Ok h
       | [] => Raise (mk_exn WebDriverException "no such element")
       end;
     find_elements := fun by_ s =>
       match by_ with
       | CSS_SELECTOR_BY =>
           match simple_css s with
           | Some matches =>
               Ok (ranks_where (fun e => is_tag e && matches e) page)
           | None => Raise (mk_exn WebDriverException "invalid selector")
           end
       | XPATH_BY => Ok (ranks_where (fun e => String.eqb (path_xpath e) s) page)
       end;
     is_displayed := fun h =>
       match nth_error (all_elements page) h with
       | Some e => Ok (match attrs e with
                       | Some a => match lookup "hidden" a with
                                   | Some _ => false
                                   | None => true
                                   end
                       | None => true
                       end)
       | None => Raise (mk_exn WebDriverException "stale element")
       end;
     execute_script := fun _ => script |}.

Definition test_base (page : node) (script : result pyval) : Base :=
  {| driver := still_browser page script;
     base_container := "body";
     test_function := Some "test_CT001" |}.

(** A selector engine for which every selector matches every tag. *)
Definition any_tag_css (selector : string) : option (PageElement -> bool) :=
  Some (fun _ => true).

(** A browser in which every path resolves, for the calls that only need
    a handle. *)
Definition resolving_browser : WebDriver :=
  {| page_source := Tag "[document]" [] [];
     later_sources := [];
     find_element_by_xpath := fun _ => Ok 0%nat;
     find_elements := fun _ _ => Ok [];
     is_displayed := fun _ => Ok true;
     execute_script := fun _ => Ok PNone |}.

Definition resolving_base : Base :=
  {| driver := resolving_browser;
     base_container := "body";
     test_function := Some "test_CT001" |}.

(** A page with two open dialogs of the same z-index over a lower one, and
    the same page before any dialog opened. *)
Definition stacked_page : node :=
  Tag "[document]" []
    [Tag "body" []
       [Tag "div" [("class", "tmodaldialog"); ("style", "z-index:10;")] [];
        Tag "div" [("class", "tmodaldialog"); ("style", "z-index:20;")] [];
        Tag "div" [("class", "tmodaldialog"); ("style", "z-index:20;")] []]].

Definition loading_page : node :=
  Tag "[document]" [] [Tag "body" [] []].

(** A page with an open dialog that holds a label and a field, and a button
    outside the dialog. *)
Definition dialog_page : node :=
  Tag "[document]" []
    [Tag "body" []
       [Tag "div" [("class", "tmodaldialog"); ("style", "z-index:20;")]
          [Tag "label" [("class", "tsay")] [NavigableString "Customer name"];
           Tag "input" [("class", "tget")] [];
           Tag "label" [("class", "tsay")] [NavigableString "Address"]];
        Tag "button" [] [NavigableString "OK"]]].

(** A page without any dialog. *)
Definition plain_page : node :=
  Tag "[document]" [] [Tag "body" [] [Tag "button" [] [NavigableString "OK"]]].

(** A page for the label lookup: a div holding the label, then a span, then
    an input. *)
Definition label_page : node :=
  Tag "[document]" []
    [Tag "body" []
       [Tag "div" [] [NavigableString "Name* "];
        Tag "span" [] [];
        Tag "input" [] []]].

(** U+00A0, the no-break space. *)
Definition nbsp : string := PyStr.bytes [194%nat; 160%nat].

(** A dialog whose label has an accent: a div holding the text of the
    label, ended by a no-break space, then the field, then the same name
    in a label tag. *)
Definition accented_page : node :=
  Tag "[document]" []
    [Tag "body" []
       [Tag "div" [("class", "tmodaldialog"); ("style", "z-index:20;")]
          [Tag "div" [] [NavigableString ("João" ++ nbsp)];
           Tag "input" [("class", "tget")] [];
           Tag "label" [("class", "tsay")] [NavigableString "João"]]]].

(** A tag with one inline style, alone in its document. *)
Definition styled (tag style : string) : PageElement :=
  mk_elt (Tag tag [("style", style)] []) [].

(** * Properties *)

(** ** Strings *)

Lemma append_empty_r (s : string) : (s ++ "")%string = s.
Proof.
  induction s as [|c s IH]; simpl; [reflexivity | now rewrite IH].
Qed.

Lemma append_assoc (a b c : string) :
  ((a ++ b) ++ c)%string = (a ++ b ++ c)%string.
Proof.
  induction a as [|x a IH]; cbn [append]; [reflexivity | now rewrite IH].
Qed.

Lemma prefix_cons (a b : ascii) (s1 s2 : string) :
  String.prefix (String a s1) (String b s2)
  = if ascii_dec a b then String.prefix s1 s2 else false.
Proof. reflexivity. Qed.

Lemma prefix_append (sep rest : string) :
  String.prefix sep (sep ++ rest) = true.
Proof.
  induction sep as [|c sep IH]; simpl.
  - now destruct rest.
  - destruct (ascii_dec c c) as [_|N]; [exact IH | now elim N].
Qed.

Lemma split_go_cons (sep : string) (k : nat) (s : string) :
  exists piece rest, PyStr.split_go sep k s = piece :: rest.
Proof.
  revert k; induction s as [|c s IH]; intros k; cbn [PyStr.split_go].
  - now exists ""%string, [].
  - destruct k as [|k]; [|apply IH].
    destruct (String.prefix sep (String c s)); [now eauto|].
    destruct (IH 0%nat) as (p & r & E); rewrite E; eauto.
Qed.

(** Passing over the rest of an occurrence. *)
Lemma split_go_skip (sep t rest : string) :
  PyStr.split_go sep (String.length t) (t ++ rest) = PyStr.split_go sep 0 rest.
Proof.
  induction t as [|c t IH]; cbn [PyStr.split_go String.length append];
    [reflexivity | exact IH].
Qed.

(** The first piece, when the separator starts nowhere within [a]. *)
Lemma split_go_head (sep a rest : string) :
  no_start_within sep a rest = true ->
  forall piece pieces,
    PyStr.split_go sep 0 rest = piece :: pieces ->
    PyStr.split_go sep 0 (a ++ rest) = (a ++ piece)%string :: pieces.
Proof.
  induction a as [|c a IH]; cbn [no_start_within append];
    intros H piece pieces E; [exact E|].
  apply andb_true_iff in H as [H1 H2].
  apply negb_true_iff in H1. cbn [append] in H1.
  cbn [PyStr.split_go]. rewrite H1.
  now rewrite (IH H2 _ _ E).
Qed.

(** Splitting at the first occurrence of a non-empty separator. *)
Lemma split_first (c : ascii) (sep' pre rest : string) :
  let sep := String c sep' in
  no_start_within sep pre (sep ++ rest) = true ->
  PyStr.split sep (pre ++ sep ++ rest) = pre :: PyStr.split sep rest.
Proof.
  intros sep H. unfold PyStr.split.
  assert (E : PyStr.split_go sep 0 (sep ++ rest)
              = ""%string :: PyStr.split_go sep 0 rest).
  { pose proof (prefix_append sep rest) as P.
    unfold sep in *. cbn [append] in *. cbn [PyStr.split_go].
    rewrite P. f_equal.
    cbn [String.length]. rewrite Nat.sub_1_r. cbn [Nat.pred].
    apply split_go_skip. }
  rewrite (split_go_head _ _ _ H _ _ E). now rewrite append_empty_r.
Qed.

Lemma contains_append (sep pre rest : string) :
  PyStr.contains sep (pre ++ sep ++ rest) = true.
Proof.
  induction pre as [|c pre IH]; cbn [append].
  - pose proof (prefix_append sep rest) as P.
    destruct (sep ++ rest)%string; cbn [PyStr.contains]; now rewrite P.
  - cbn [PyStr.contains]. rewrite IH. apply orb_true_r.
Qed.

Lemma no_semicolon_no_start (a rest : string) :
  PyStr.has_char ";" a = false -> no_start_within ";" a rest = true.
Proof.
  induction a as [|c a IH]; cbn [PyStr.has_char no_start_within append];
    intros H; [reflexivity|].
  apply orb_false_iff in H as [H1 H2]. rewrite (IH H2), andb_true_r.
  apply Ascii.eqb_neq in H1. rewrite prefix_cons.
  destruct (ascii_dec ";" c) as [E|N]; [now elim H1 | reflexivity].
Qed.

(** The text in front of the first semicolon. *)
Lemma split_semicolon_head (seg tail : string) :
  PyStr.has_char ";" seg = false ->
  tail = ""%string \/ (exists post, tail = String ";" post) ->
  nth 0 (PyStr.split ";" (seg ++ tail)) ""%string = seg.
Proof.
  intros H T. unfold PyStr.split.
  destruct (split_go_cons ";" 0 tail) as (p & r & E).
  rewrite (split_go_head _ _ _ (no_semicolon_no_start _ _ H) _ _ E).
  cbn [nth]. destruct T as [->|[post ->]]; cbn [PyStr.split_go] in E.
  - injection E as <- _. apply append_empty_r.
  - pose proof (prefix_append ";" post) as P. cbn [append] in P.
    rewrite P in E. injection E as <- _. apply append_empty_r.
Qed.

(** ** [search_zindex] *)

Lemma prefix_decompose (p s : string) :
  String.prefix p s = true -> exists rest, s = (p ++ rest)%string.
Proof.
  revert s; induction p as [|a p IH]; intros s H.
  - now exists s.
  - destruct s as [|b s]; [discriminate H|]. rewrite prefix_cons in H.
    destruct (ascii_dec a b) as [->|]; [|discriminate H].
    destruct (IH s H) as [rest ->]. now exists rest.
Qed.

Lemma split_go_at_sep (c : ascii) (sep' rest : string) :
  PyStr.split_go (String c sep') 0 (String c sep' ++ rest)
  = ""%string :: PyStr.split_go (String c sep') 0 rest.
Proof.
  pose proof (prefix_append (String c sep') rest) as P.
  cbn [append] in *. cbn [PyStr.split_go]. rewrite P. f_equal.
  cbn [String.length]. rewrite Nat.sub_1_r. cbn [Nat.pred].
  apply split_go_skip.
Qed.

(** The first occurrence of a separator that occurs. *)
Lemma first_occurrence (sep s : string) :
  PyStr.contains sep s = true ->
  exists pre rest,
    s = (pre ++ sep ++ rest)%string /\
    no_start_within sep pre (sep ++ rest) = true.
Proof.
  induction s as [|c s IH]; cbn [PyStr.contains]; intros H.
  - rewrite orb_false_r in H. destruct (prefix_decompose _ _ H) as [rest E].
    now exists ""%string, rest.
  - destruct (String.prefix sep (String c s)) eqn:P.
    + destruct (prefix_decompose _ _ P) as [rest E].
      now exists ""%string, rest.
    + cbn [orb] in H. destruct (IH H) as (pre & rest & -> & N).
      exists (String c pre), rest. split; [reflexivity|].
      cbn [no_start_within append]. cbn [append] in P. now rewrite P, N.
Qed.

(** Where the text that [search_zindex] reads ends: at the next semicolon
    or marker, or at the end. *)
Lemma segment_end (sep rest : string) :
  exists seg tail,
    rest = (seg ++ tail)%string /\
    no_start_within sep seg tail = true /\
    PyStr.has_char ";" seg = false /\
    (tail = ""%string \/ (exists post, tail = String ";" post) \/
     (exists post, tail = (sep ++ post)%string)).
Proof.
  induction rest as [|c rest (seg & tail & E & N & S & T)].
  - exists ""%string, ""%string. auto.
  - destruct (Ascii.eqb ";" c) eqn:C.
    + apply Ascii.eqb_eq in C as <-. exists ""%string, (String ";" rest).
      repeat split; eauto.
    + destruct (String.prefix sep (String c rest)) eqn:P.
      * destruct (prefix_decompose _ _ P) as [post Ep].
        exists ""%string, (String c rest). repeat split; eauto.
      * exists (String c seg), tail. rewrite E in *.
        cbn [no_start_within append PyStr.has_char].
        rewrite P, N, C, S. repeat split; auto.
Qed.

(** What the two [split]s of [search_zindex] cut out of a style. *)
Lemma zindex_segment (pre seg tail : string) :
  no_start_within "z-index:" pre ("z-index:" ++ seg ++ tail) = true ->
  no_start_within "z-index:" seg tail = true ->
  PyStr.has_char ";" seg = false ->
  tail = ""%string \/ (exists post, tail = String ";" post) \/
  (exists post, tail = ("z-index:" ++ post)%string) ->
  nth 0 (PyStr.split ";"
           (nth 1 (PyStr.split "z-index:" (pre ++ "z-index:" ++ seg ++ tail))
                ""%string))
      ""%string = seg.
Proof.
  intros Hpre Hseg Hsemi Htail.
  rewrite (split_first "z" "-index:" pre (seg ++ tail) Hpre).
  cbn [nth]. unfold PyStr.split at 2.
  destruct (split_go_cons "z-index:" 0 tail) as (p0 & r0 & E0).
  rewrite (split_go_head _ _ _ Hseg _ _ E0). cbn [nth].
  apply split_semicolon_head; [exact Hsemi|].
  destruct Htail as [->|[[post ->]|[post ->]]].
  - cbn in E0. injection E0 as <- _. now left.
  - cbn [PyStr.split_go] in E0. rewrite prefix_cons in E0.
    destruct (ascii_dec "z" ";") as [D|_]; [discriminate D|].
    destruct (split_go_cons "z-index:" 0 post) as (p1 & r1 & E1).
    rewrite E1 in E0. injection E0 as <- _. right. now exists p1.
  - rewrite (split_go_at_sep "z" "-index:" post) in E0.
    injection E0 as <- _. now left.
Qed.

(** C2, amended: the derived z-index is 0 when the element has no
    attributes, no style, or no [z-index:] marker in the style.  A style
    that holds the marker reads [pre], the first marker, [seg] and [tail],
    where [seg] runs to the next semicolon or marker, or to the end of the
    style; the z-index is then the integer that [int] reads in [seg],
    stripped, and [search_zindex] raises [ValueError] when [int] reads
    none. *)
Theorem search_zindex_spec (e : PageElement) :
  (attrs e = None -> search_zindex e = Ok 0) /\
  (forall a, attrs e = Some a -> lookup "style" a = None ->
             search_zindex e = Ok 0) /\
  (forall a style,
      attrs e = Some a -> lookup "style" a = Some style ->
      PyStr.contains "z-index:" style = false ->
      search_zindex e = Ok 0) /\
  (forall a pre seg tail,
      attrs e = Some a ->
      lookup "style" a = Some (pre ++ "z-index:" ++ seg ++ tail)%string ->
      no_start_within "z-index:" pre ("z-index:" ++ seg ++ tail) = true ->
      no_start_within "z-index:" seg tail = true ->
      PyStr.has_char ";" seg = false ->
      tail = ""%string \/ (exists post, tail = String ";" post) \/
      (exists post, tail = ("z-index:" ++ post)%string) ->
      (forall n, int_value (PyStr.strip seg) = Some n ->
                 search_zindex e = Ok n) /\
      (int_value (PyStr.strip seg) = None ->
       exists msg, search_zindex e = Raise (mk_exn ValueError msg))) /\
  (forall style,
      PyStr.contains "z-index:" style = true ->
      exists pre seg tail,
        style = (pre ++ "z-index:" ++ seg ++ tail)%string /\
        no_start_within "z-index:" pre ("z-index:" ++ seg ++ tail) = true /\
        no_start_within "z-index:" seg tail = true /\
        PyStr.has_char ";" seg = false /\
        (tail = ""%string \/ (exists post, tail = String ";" post) \/
         (exists post, tail = ("z-index:" ++ post)%string))).
Proof.
  unfold search_zindex. split; [|split; [|split; [|split]]].
  - now intros ->.
  - now intros a -> ->.
  - now intros a style -> -> ->.
  - intros a pre seg tail -> -> Hpre Hseg Hsemi Htail.
    rewrite contains_append, (zindex_segment pre seg tail) by assumption.
    unfold PyStr.int. split.
    + intros n ->. reflexivity.
    + intros ->. eauto.
  - intros style C.
    destruct (first_occurrence _ _ C) as (pre & rest & -> & Hpre).
    destruct (segment_end "z-index:" rest)
      as (seg & tail & -> & Hseg & Hsemi & Htail).
    exists pre, seg, tail. auto.
Qed.

(** ** Sorting *)

Section ListSort.

Context {A : Type}.

Implicit Types (l : list (Z * A)) (k z : Z) (x : A).

Lemma insert_keyed_perm k x l :
  Permutation ((k, x) :: l) (insert_keyed k x l).
Proof.
  induction l as [|[k' y] l IH]; cbn [insert_keyed]; [reflexivity|].
  destruct (k <=? k'); [reflexivity|].
  rewrite perm_swap. now apply perm_skip.
Qed.

Lemma sort_keyed_perm l : Permutation l (sort_keyed l).
Proof.
  induction l as [|[k x] l IH]; cbn [sort_keyed]; [constructor|].
  rewrite <- insert_keyed_perm. now apply perm_skip.
Qed.

Lemma insert_keyed_sorted k x l :
  Sorted key_le l -> Sorted key_le (insert_keyed k x l).
Proof.
  induction l as [|[k' y] l IH]; cbn [insert_keyed]; intros S.
  - repeat constructor.
  - destruct (k <=? k') eqn:C.
    + constructor; [exact S|]. constructor. unfold key_le; cbn. lia.
    + apply Sorted_inv in S as [S H]. constructor; [now apply IH|].
      destruct l as [|[k'' w] l]; cbn [insert_keyed].
      * constructor. unfold key_le; cbn. lia.
      * apply HdRel_inv in H. unfold key_le in H; cbn in H.
        destruct (k <=? k''); constructor; unfold key_le; cbn; lia.
Qed.

Lemma sort_keyed_sorted l : StronglySorted key_le (sort_keyed l).
Proof.
  apply Sorted_StronglySorted.
  - intros p q r; unfold key_le; lia.
  - induction l as [|[k x] l IH]; cbn [sort_keyed]; [constructor|].
    now apply insert_keyed_sorted.
Qed.

(** Insertion passes only elements of a smaller key, so the elements of
    each key stay in the order in which they came. *)
Lemma insert_keyed_stable z k x l :
  filter (has_key z) (insert_keyed k x l) = filter (has_key z) ((k, x) :: l).
Proof.
  induction l as [|[k' y] l IH]; cbn [insert_keyed]; [reflexivity|].
  destruct (k <=? k') eqn:C; [reflexivity|].
  cbn [filter] in *. rewrite IH. unfold has_key; cbn [fst].
  destruct (k' =? z) eqn:E1, (k =? z) eqn:E2; try reflexivity. lia.
Qed.

Lemma sort_keyed_stable z l :
  filter (has_key z) (sort_keyed l) = filter (has_key z) l.
Proof.
  induction l as [|[k x] l IH]; cbn [sort_keyed]; [reflexivity|].
  rewrite insert_keyed_stable. cbn [filter]. now rewrite IH.
Qed.

Lemma StronglySorted_snoc (R : Z * A -> Z * A -> Prop) l (p : Z * A) :
  StronglySorted R l -> Forall (fun q => R q p) l ->
  StronglySorted R (l ++ [p]).
Proof.
  induction 1 as [|q l S IH F]; cbn [app]; intros H.
  - repeat constructor.
  - apply Forall_cons_iff in H as [H1 H2]. constructor; [now apply IH|].
    apply Forall_app; split; [exact F | now constructor].
Qed.

Lemma StronglySorted_rev (R : Z * A -> Z * A -> Prop) l :
  StronglySorted R l -> StronglySorted (fun p q => R q p) (rev l).
Proof.
  induction 1 as [|p l S IH F]; cbn [rev]; [constructor|].
  apply StronglySorted_snoc; [exact IH | now apply Forall_rev].
Qed.

Lemma ordered_perm (reverse : bool) l : Permutation l (ordered reverse l).
Proof.
  destruct reverse; cbn [ordered]; [|apply sort_keyed_perm].
  rewrite <- Permutation_rev, <- sort_keyed_perm. apply Permutation_rev.
Qed.

Lemma ordered_stable (reverse : bool) z l :
  filter (has_key z) (ordered reverse l) = filter (has_key z) l.
Proof.
  destruct reverse; cbn [ordered]; [|apply sort_keyed_stable].
  now rewrite filter_rev, sort_keyed_stable, filter_rev, rev_involutive.
Qed.

Lemma ordered_sorted (reverse : bool) l :
  StronglySorted (fun p q => if reverse then key_le q p else key_le p q)
                 (ordered reverse l).
Proof.
  destruct reverse; cbn [ordered]; [|apply sort_keyed_sorted].
  apply StronglySorted_rev, sort_keyed_sorted.
Qed.

Variable key : A -> result Z.

Lemma mapM_all_ok (xs : list A) :
  Forall (fun x => exists z, key x = Ok z) xs ->
  mapM key xs = Ok (map (key_of key) xs).
Proof.
  induction 1 as [|x xs [z E] _ IH]; cbn [mapM map]; [reflexivity|].
  unfold key_of at 1. rewrite E, IH. reflexivity.
Qed.

Lemma mapM_raises (xs : list A) (x : A) (e : exn) :
  In x xs -> key x = Raise e -> exists e', mapM key xs = Raise e'.
Proof.
  induction xs as [|y xs IH]; cbn [In mapM]; [easy|].
  intros [->|I] E.
  - rewrite E. cbn. eauto.
  - destruct (key y); cbn [bind]; [|eauto].
    destruct (IH I E) as [e' ->]. cbn. eauto.
Qed.

Lemma combine_decorate (xs : list A) :
  combine (map (key_of key) xs) xs = map (decorate key) xs.
Proof.
  induction xs as [|x xs IH]; cbn; [reflexivity | now rewrite IH].
Qed.

Lemma list_sort_ok (reverse : bool) (xs : list A) :
  Forall (fun x => exists z, key x = Ok z) xs ->
  list_sort key reverse xs
  = Ok (map snd (ordered reverse (map (decorate key) xs))).
Proof.
  intros H. unfold list_sort. rewrite (mapM_all_ok _ H). cbn [bind].
  rewrite combine_decorate. now destruct reverse.
Qed.

Lemma map_snd_decorate (xs : list A) : map snd (map (decorate key) xs) = xs.
Proof.
  induction xs as [|x xs IH]; cbn; [reflexivity | now rewrite IH].
Qed.

(** Every pair of a decorated list, however permuted, is an element with
    its own key. *)
Lemma decorated_pairs l (xs : list A) :
  Permutation (map (decorate key) xs) l ->
  Forall (fun p => fst p = key_of key (snd p)) l.
Proof.
  intros P. apply Forall_forall. intros p I.
  apply (Permutation_in _ (Permutation_sym P)) in I.
  apply in_map_iff in I as (x & <- & _). reflexivity.
Qed.

Lemma filter_map_snd z l :
  Forall (fun p => fst p = key_of key (snd p)) l ->
  filter (fun x => key_of key x =? z) (map snd l)
  = map snd (filter (has_key z) l).
Proof.
  induction 1 as [|p l E _ IH]; cbn [map filter]; [reflexivity|].
  unfold has_key at 1. rewrite <- E.
  destruct (fst p =? z); cbn [map]; now rewrite IH.
Qed.

Lemma sorted_map_snd (reverse : bool) l :
  Forall (fun p => fst p = key_of key (snd p)) l ->
  StronglySorted (fun p q => if reverse then key_le q p else key_le p q) l ->
  StronglySorted (in_order key reverse) (map snd l).
Proof.
  intros F S. induction S as [|p l S IH H]; cbn [map]; [constructor|].
  apply Forall_cons_iff in F as [E F]. constructor; [now apply IH|].
  apply Forall_map. rewrite Forall_forall in *. intros q I.
  specialize (H q I). specialize (F q I). unfold in_order, key_le in *.
  destruct reverse; lia.
Qed.

(** [list.sort]: when every key can be computed the sort returns, and its
    outcome is a permutation of the list, in the order of the keys, with the
    elements of each key in the order in which they came. *)
Lemma list_sort_spec (reverse : bool) (xs : list A) :
  Forall (fun x => exists z, key x = Ok z) xs ->
  exists sorted,
    list_sort key reverse xs = Ok sorted /\
    Permutation xs sorted /\
    StronglySorted (in_order key reverse) sorted /\
    forall z, filter (fun x => key_of key x =? z) sorted
              = filter (fun x => key_of key x =? z) xs.
Proof.
  intros H. eexists. split; [apply (list_sort_ok reverse _ H)|].
  pose proof (ordered_perm reverse (map (decorate key) xs)) as P.
  pose proof (decorated_pairs _ _ P) as F.
  split; [|split].
  - rewrite <- (map_snd_decorate xs) at 1. now apply Permutation_map.
  - apply sorted_map_snd; [exact F | apply ordered_sorted].
  - intros z. rewrite (filter_map_snd z _ F), ordered_stable.
    rewrite <- (filter_map_snd z _
                  (decorated_pairs _ _ (Permutation_refl _))).
    now rewrite map_snd_decorate.
Qed.

Lemma mapM_ok_inv (xs : list A) (ks : list Z) :
  mapM key xs = Ok ks -> Forall (fun x => exists z, key x = Ok z) xs.
Proof.
  revert ks; induction xs as [|x xs IH]; intros ks; cbn [mapM];
    [constructor|].
  destruct (key x) as [z|] eqn:E; cbn [bind]; [|discriminate].
  destruct (mapM key xs) as [ks'|] eqn:M; cbn [bind]; [|discriminate].
  intros _. constructor; [now exists z | now apply (IH ks')].
Qed.

Lemma list_sort_ok_inv (reverse : bool) (xs sorted : list A) :
  list_sort key reverse xs = Ok sorted ->
  Forall (fun x => exists z, key x = Ok z) xs.
Proof.
  unfold list_sort. destruct (mapM key xs) as [ks|] eqn:M; cbn [bind];
    [|discriminate].
  intros _. exact (mapM_ok_inv _ _ M).
Qed.

(** A key that raises makes the sort raise. *)
Lemma list_sort_raises (reverse : bool) (xs : list A) (x : A) (e : exn) :
  In x xs -> key x = Raise e ->
  exists e', list_sort key reverse xs = Raise e'.
Proof.
  intros I E. unfold list_sort.
  destruct (mapM_raises xs x e I E) as [e' ->]. cbn. eauto.
Qed.

End ListSort.

(** ** [zindex_sort] *)

Lemma has_zindex_all (elements : list PageElement) :
  forallb has_zindex elements = true ->
  Forall (fun e => exists z, search_zindex e = Ok z) elements.
Proof.
  intros H. apply Forall_forall. intros e I.
  rewrite forallb_forall in H. specialize (H e I). unfold has_zindex in H.
  destruct (search_zindex e) as [z|]; [now exists z | discriminate].
Qed.

(** C3, amended: for every list of candidates whose z-indexes can all be
    derived, ranking ([zindex_sort] with [reverse=True]) returns the list by
    descending (non-increasing) z-index, and the candidates of each z-index
    keep their original relative order; a candidate whose z-index text
    denotes no integer makes the ranking raise. *)
Theorem zindex_sort_ranking (elements : list PageElement) :
  (forallb has_zindex elements = true ->
   exists ranked,
     zindex_sort elements true = Ok ranked /\
     StronglySorted (fun a b => zindex_of a >= zindex_of b) ranked /\
     forall z, filter (fun e => zindex_of e =? z) ranked
               = filter (fun e => zindex_of e =? z) elements) /\
  (forall e, In e elements -> has_zindex e = false ->
             exists err, zindex_sort elements true = Raise err).
Proof.
  split.
  - intros H.
    destruct (list_sort_spec search_zindex true elements (has_zindex_all _ H))
      as (ranked & E & _ & S & F).
    exists ranked. split; [exact E|]. split; [|exact F].
    clear -S. induction S as [|a l S IH H]; constructor; [exact IH|].
    rewrite Forall_forall in *. intros b I. specialize (H b I).
    unfold in_order, zindex_of in *. lia.
  - intros e I H. unfold has_zindex in H.
    destruct (search_zindex e) as [z|err] eqn:E; [discriminate|].
    exact (list_sort_raises search_zindex true elements e err I E).
Qed.

(** C9, amended: for either value of [reverse], whatever [zindex_sort]
    returns is a permutation of its input, and it returns whenever the
    z-index of every element can be derived. *)
Theorem zindex_sort_permutation (elements : list PageElement)
    (reverse : bool) :
  (forall sorted, zindex_sort elements reverse = Ok sorted ->
                  Permutation elements sorted) /\
  (forallb has_zindex elements = true ->
   exists sorted, zindex_sort elements reverse = Ok sorted /\
                  Permutation elements sorted).
Proof.
  assert (G : Forall (fun e => exists z, search_zindex e = Ok z) elements ->
              exists sorted, zindex_sort elements reverse = Ok sorted /\
                             Permutation elements sorted).
  { intros H.
    destruct (list_sort_spec search_zindex reverse elements H)
      as (sorted & E & P & _).
    now exists sorted. }
  split.
  - intros sorted E.
    destruct (G (list_sort_ok_inv search_zindex reverse _ _ E))
      as (sorted' & E' & P).
    unfold zindex_sort in *. congruence.
  - intros H. apply G, has_zindex_all, H.
Qed.

(** ** Climbing to the first div *)

Lemma elt_eq (a e : PageElement) : soup a = soup e -> loc a = loc e -> a = e.
Proof. destruct a, e; cbn; now intros -> ->. Qed.

Lemma ancestor_or_self_refl (e : PageElement) : ancestor_or_self e e.
Proof. split; [reflexivity | exists []; now rewrite app_nil_r]. Qed.

Lemma find_parent_some (c p : PageElement) :
  find_parent c = Some p <->
  loc c <> [] /\ p = mk_elt (soup c) (removelast (loc c)).
Proof.
  unfold find_parent. destruct (loc c) as [|i l].
  - split; [discriminate | now intros [N _]].
  - split; [intros [= <-]; now split | intros [_ ->]; reflexivity].
Qed.

Lemma ancestor_cases (a c : PageElement) :
  ancestor_or_self a c ->
  a = c \/ exists p, find_parent c = Some p /\ ancestor_or_self a p.
Proof.
  intros [S [q E]]. induction q as [|x q' _] using rev_ind.
  - left. apply elt_eq; [exact S | now rewrite app_nil_r in E].
  - right. rewrite app_assoc in E. eexists. split.
    + apply find_parent_some. split; [|reflexivity].
      rewrite E. now destruct (loc a ++ q').
    + split; [exact S|]. exists q'. cbn [loc]. rewrite E.
      apply removelast_last.
Qed.

Lemma ancestor_of_parent (a c p : PageElement) :
  find_parent c = Some p -> ancestor_or_self a p -> ancestor_or_self a c.
Proof.
  intros P [S [q E]]. apply find_parent_some in P as [N ->].
  cbn [soup loc] in *. split; [exact S|].
  exists (q ++ [last (loc c) 0%nat]). rewrite app_assoc, <- E.
  now apply app_removelast_last.
Qed.

Lemma ancestor_antisym (a c : PageElement) :
  ancestor_or_self a c -> ancestor_or_self c a -> a = c.
Proof.
  intros [S [q E]] [_ [q' E']]. apply elt_eq; [exact S|].
  rewrite E' in E. rewrite <- app_assoc in E.
  rewrite <- (app_nil_r (loc c)) in E at 1.
  apply app_inv_head in E. symmetry in E. apply app_eq_nil in E as [-> _].
  now rewrite app_nil_r in E'.
Qed.

(** The loop stops on the nearest div, or on [None] when there is none;
    the fuel of [find_first_div_parent] is never used up. *)
Lemma find_first_div_parent_loop_spec (fuel : nat) (c : PageElement) :
  (length (loc c) < fuel)%nat ->
  match find_first_div_parent_loop fuel (Some c) with
  | Some d => nearest_div d c
  | None => no_div_above c
  end.
Proof.
  revert c; induction fuel as [|fuel IH]; intros c L; [lia|].
  cbn [find_first_div_parent_loop]. destruct (is_div c) eqn:D.
  - split; [apply ancestor_or_self_refl|]. split; [exact D|].
    intros a A1 A2 _. now apply ancestor_antisym.
  - destruct (find_parent c) as [p|] eqn:P.
    + assert (Lp : (length (loc p) < fuel)%nat).
      { pose proof P as P0. apply find_parent_some in P0 as [N ->].
        cbn [loc]. rewrite (app_removelast_last 0%nat N) in L.
        rewrite length_app in L. cbn [length] in L. lia. }
      specialize (IH p Lp).
      destruct (find_first_div_parent_loop fuel (Some p)) as [d|].
      * destruct IH as (A & Dd & N). split; [|split; [exact Dd|]].
        -- exact (ancestor_of_parent _ _ _ P A).
        -- intros a Aa Ada Da.
           destruct (ancestor_cases _ _ Aa) as [->|(p' & P' & Ap)];
             [congruence|].
           rewrite P in P'. injection P' as <-. now apply N.
      * intros a Aa.
        destruct (ancestor_cases _ _ Aa) as [->|(p' & P' & Ap)];
          [exact D|].
        rewrite P in P'. injection P' as <-. now apply IH.
    + destruct fuel; cbn [find_first_div_parent_loop].
      * intros a Aa.
        destruct (ancestor_cases _ _ Aa) as [->|(p' & P' & _)];
          [exact D | congruence].
      * intros a Aa.
        destruct (ancestor_cases _ _ Aa) as [->|(p' & P' & _)];
          [exact D | congruence].
Qed.

Lemma find_first_div_parent_spec (element : PageElement) :
  match find_first_div_parent element with
  | Some d => nearest_div d element
  | None => no_div_above element
  end.
Proof. apply find_first_div_parent_loop_spec. lia. Qed.

(** ** The following siblings *)

Lemma get_app (n : node) (p q : path) :
  get n (p ++ q) = match get n p with
                   | Some m => get m q
                   | None => None
                   end.
Proof.
  revert n; induction p as [|i p IH]; intros n; cbn [app get]; [reflexivity|].
  destruct n as [nm a cs|s]; [|reflexivity].
  destruct (nth_error cs i); [apply IH | reflexivity].
Qed.

Lemma find_map_seq {B} (P : B -> bool) (f : nat -> B) (a len : nat) :
  match find P (map f (seq a len)) with
  | Some s =>
      exists j, (a <= j < a + len)%nat /\ s = f j /\ P s = true /\
                forall k, (a <= k < j)%nat -> P (f k) = false
  | None => forall k, (a <= k < a + len)%nat -> P (f k) = false
  end.
Proof.
  revert a; induction len as [|len IH]; intros a; cbn [seq map find].
  - intros k K. lia.
  - destruct (P (f a)) eqn:E.
    + exists a. split; [lia|]. split; [reflexivity|]. split; [exact E|].
      intros k K. lia.
    + specialize (IH (S a)).
      destruct (find P (map f (seq (S a) len))) as [s|].
      * destruct IH as (j & J & -> & Pj & N). exists j.
        split; [lia|]. split; [reflexivity|]. split; [exact Pj|].
        intros k K.
        destruct (Nat.eq_dec k a) as [->|Hk]; [exact E | apply N; lia].
      * intros k K.
        destruct (Nat.eq_dec k a) as [->|Hk]; [exact E | apply IH; lia].
Qed.

Lemma has_name_absent (tag : string) (e : PageElement) :
  here e = None -> has_name tag e = false.
Proof. unfold has_name, name. now intros ->. Qed.

Lemma loc_last (d : PageElement) (i : nat) (rp : list nat) :
  rev (loc d) = i :: rp ->
  loc d = rev rp ++ [i] /\ removelast (loc d) = rev rp.
Proof.
  intros R. assert (E : loc d = rev rp ++ [i]).
  { rewrite <- (rev_involutive (loc d)), R. reflexivity. }
  split; [exact E | rewrite E; apply removelast_last].
Qed.

(** [find_next_sibling("input")] gives the first input tag among the
    following siblings, however far, or nothing when there is none. *)
Lemma find_next_sibling_spec (d : PageElement) :
  match find_next_sibling "input" d with
  | Some s => first_input_after d s
  | None => no_input_after d
  end.
Proof.
  unfold find_next_sibling, next_siblings.
  destruct (rev (loc d)) as [|i rp] eqn:R.
  - cbn [find]. intros i k E _.
    assert (L : loc d = []).
    { rewrite <- (rev_involutive (loc d)), R. reflexivity. }
    rewrite L in E. now destruct (removelast (@nil nat)).
  - destruct (loc_last d i rp R) as [L RL].
    assert (Out : forall k,
               get (soup d) (rev rp) = None \/
               (exists s, get (soup d) (rev rp) = Some (NavigableString s)) \/
               (exists nm a cs, get (soup d) (rev rp) = Some (Tag nm a cs) /\
                                (length cs <= k)%nat) ->
               has_name "input" (sibling_at d k) = false).
    { intros k H. apply has_name_absent. unfold here, sibling_at.
      cbn [soup loc]. rewrite RL, get_app.
      destruct H as [->|[[s ->]|(nm & a & cs & -> & K)]]; try reflexivity.
      cbn [get]. apply nth_error_None in K. now rewrite K. }
    destruct (get (soup d) (rev rp)) as [[nm a cs|s]|] eqn:G.
    + pose proof (find_map_seq (has_name "input")
                    (fun j => mk_elt (soup d) (rev rp ++ [j]))
                    (S i) (length cs - S i)) as F.
      cbv beta in F.
      destruct (find (has_name "input")
                  (map (fun j => mk_elt (soup d) (rev rp ++ [j]))
                       (seq (S i) (length cs - S i)))) as [s|].
      * destruct F as (j & J & -> & Pj & N). exists i, j.
        unfold sibling_at. rewrite RL.
        split; [exact L|]. split; [lia|]. split; [reflexivity|].
        split; [exact Pj|]. intros k K. apply N. lia.
      * intros i' k E K. rewrite RL, L in E.
        apply app_inj_tail in E as [_ <-].
        destruct (Nat.lt_ge_cases k (length cs)) as [Lt|Ge].
        -- unfold sibling_at. rewrite RL. apply F. lia.
        -- apply Out. right; right. now exists nm, a, cs.
    + cbn [find]. intros i' k _ _. apply Out. right; left. now exists s.
    + cbn [find]. intros i' k _ _. apply Out. now left.
Qed.

(** ** [find_label_element] *)

(** *** The matcher and what a pattern stands for *)

Lemma denotes_cat_iff (r1 r2 : Re.regex) (s : string) :
  denotes (Re.Cat r1 r2) s <->
  exists s1 s2, s = (s1 ++ s2)%string /\ denotes r1 s1 /\ denotes r2 s2.
Proof.
  split.
  - intros H. inversion H; subst. eauto.
  - intros (s1 & s2 & -> & H1 & H2). now constructor.
Qed.

Lemma denotes_alt_iff (r1 r2 : Re.regex) (s : string) :
  denotes (Re.Alt r1 r2) s <-> denotes r1 s \/ denotes r2 s.
Proof.
  split.
  - intros H. inversion H; subst; auto.
  - intros [H|H]; [now apply denotes_alt_l | now apply denotes_alt_r].
Qed.

Lemma denotes_eps_iff (s : string) : denotes Re.Eps s <-> s = ""%string.
Proof.
  split; [intros H; now inversion H | intros ->; constructor].
Qed.

Lemma denotes_chr_iff (c : ascii) (s : string) :
  denotes (Re.Chr c) s <-> s = String c "".
Proof.
  split; [intros H; now inversion H | intros ->; constructor].
Qed.

Lemma denotes_void (s : string) : ~ denotes Re.Void s.
Proof. intros H. inversion H. Qed.

Lemma nullable_denotes (r : Re.regex) :
  Re.nullable r = true <-> denotes r "".
Proof.
  split.
  - induction r as [| |c|r1 IH1 r2 IH2|r1 IH1 r2 IH2|r IH];
      cbn [Re.nullable]; intros H; try discriminate.
    + constructor.
    + apply andb_true_iff in H as [H1 H2].
      apply (denotes_cat r1 r2 "" ""); auto.
    + apply orb_true_iff in H as [H|H];
        [apply denotes_alt_l | apply denotes_alt_r]; auto.
    + constructor.
  - intros H. remember ""%string as s eqn:E.
    induction H as [|c|r1 r2 s1 s2 H1 IH1 H2 IH2|r1 r2 s H IH|r1 r2 s H IH
                   |r|r s1 s2 H1 IH1 H2 IH2]; cbn [Re.nullable];
      try reflexivity; try discriminate.
    + destruct s1; [|discriminate]. cbn [append] in E.
      now rewrite IH1, IH2.
    + now rewrite IH.
    + rewrite IH by assumption. apply orb_true_r.
Qed.

Lemma deriv_denotes (c : ascii) (r : Re.regex) (s : string) :
  denotes (Re.deriv c r) s <-> denotes r (String c s).
Proof.
  split.
  - revert s.
    induction r as [| |d|r1 IH1 r2 IH2|r1 IH1 r2 IH2|r IH]; intros s;
      cbn [Re.deriv]; intros H.
    + now apply denotes_void in H.
    + now apply denotes_void in H.
    + destruct (Ascii.eqb c d) eqn:E; [|now apply denotes_void in H].
      apply Ascii.eqb_eq in E as ->. apply denotes_eps_iff in H as ->.
      constructor.
    + assert (L : denotes (Re.Cat (Re.deriv c r1) r2) s ->
                  denotes (Re.Cat r1 r2) (String c s)).
      { intros C. apply denotes_cat_iff in C as (s1 & s2 & -> & H1 & H2).
        apply (denotes_cat r1 r2 (String c s1) s2); auto. }
      destruct (Re.nullable r1) eqn:N; [|now apply L].
      apply denotes_alt_iff in H as [H|H]; [now apply L|].
      apply (denotes_cat r1 r2 "" (String c s));
        [now apply nullable_denotes | now apply IH2].
    + apply denotes_alt_iff in H as [H|H];
        [apply denotes_alt_l | apply denotes_alt_r]; auto.
    + apply denotes_cat_iff in H as (s1 & s2 & -> & H1 & H2).
      apply (denotes_star_cons r (String c s1) s2); auto.
  - intros H. remember (String c s) as t eqn:E. revert s E.
    induction H as [|d|r1 r2 s1 s2 H1 IH1 H2 IH2|r1 r2 t H IH|r1 r2 t H IH
                   |r|r s1 s2 H1 IH1 H2 IH2]; intros s E; cbn [Re.deriv].
    + discriminate.
    + injection E as -> <-. rewrite Ascii.eqb_refl. constructor.
    + destruct s1 as [|x s1]; cbn [append] in E.
      * subst s2. apply nullable_denotes in H1. rewrite H1.
        apply denotes_alt_r. now apply IH2.
      * injection E as -> <-.
        assert (C : denotes (Re.Cat (Re.deriv c r1) r2) (s1 ++ s2))
          by (constructor; auto).
        destruct (Re.nullable r1); [now apply denotes_alt_l | exact C].
    + apply denotes_alt_l. now apply IH.
    + apply denotes_alt_r. now apply IH.
    + discriminate.
    + destruct s1 as [|x s1]; cbn [append] in E.
      * now apply IH2.
      * injection E as -> <-. constructor; auto.
Qed.

(** The computed match agrees with what the expression stands for. *)
Lemma matches_denotes (r : Re.regex) (s : string) :
  Re.matches r s = true <-> denotes r s.
Proof.
  revert r; induction s as [|c s IH]; intros r; cbn [Re.matches].
  - apply nullable_denotes.
  - rewrite IH. apply deriv_denotes.
Qed.

Lemma denotes_lit (p s : string) : denotes (Re.lit p) s <-> s = p.
Proof.
  revert s; induction p as [|c p IH]; intros s; cbn [Re.lit].
  - apply denotes_eps_iff.
  - rewrite denotes_cat_iff. split.
    + intros (s1 & s2 & -> & H1 & H2). apply denotes_chr_iff in H1 as ->.
      apply IH in H2 as ->. reflexivity.
    + intros ->. exists (String c ""), p. split; [reflexivity|].
      split; [constructor | now apply IH].
Qed.

Lemma denotes_any_of (chars : list string) (s : string) :
  denotes (Re.any_of chars) s <-> In s chars.
Proof.
  induction chars as [|c chars IH]; cbn [Re.any_of fold_right In].
  - split; [apply denotes_void | easy].
  - fold (Re.any_of chars). rewrite denotes_alt_iff, denotes_lit, IH.
    split; intros [H|H]; auto.
Qed.

Lemma spaces_or_nothing (t : string) :
  denotes (Re.Star Re.space) t -> t = ""%string \/ spaces t.
Proof.
  intros H. remember (Re.Star Re.space) as r eqn:E.
  induction H as [|d|r1 r2 s1 s2 H1 IH1 H2 IH2|r1 r2 t H IH|r1 r2 t H IH
                 |r|r s1 s2 H1 IH1 H2 IH2]; try discriminate.
  - now left.
  - injection E as ->. right. apply denotes_any_of in H1.
    destruct (IH2 eq_refl) as [->|S].
    + rewrite append_empty_r. now constructor.
    + now apply spaces_more.
Qed.

Lemma denotes_spaces (s : string) :
  denotes (Re.plus Re.space) s <-> spaces s.
Proof.
  unfold Re.plus. rewrite denotes_cat_iff. split.
  - intros (w & t & -> & W & T). apply denotes_any_of in W.
    destruct (spaces_or_nothing t T) as [->|S].
    + rewrite append_empty_r. now constructor.
    + now apply spaces_more.
  - induction 1 as [w W|w s W S (w' & t & -> & W' & T)].
    + exists w, ""%string. rewrite append_empty_r.
      split; [reflexivity|]. split; [now apply denotes_any_of|constructor].
    + exists w, (w' ++ t)%string. split; [reflexivity|].
      split; [now apply denotes_any_of|]. now constructor.
Qed.

Lemma spaces_append (a b : string) : spaces a -> spaces b -> spaces (a ++ b).
Proof.
  induction 1 as [w W|w s W S IH]; intros B.
  - now apply spaces_more.
  - rewrite append_assoc. apply spaces_more; auto.
Qed.

(** X19: the search of the label pattern of [find_label_element], as the
    matcher computes it, succeeds exactly on the texts made of the label,
    then an asterisk or nothing, then one or more white-space characters;
    a text that is the label alone is not matched. *)
Lemma label_pattern_iff (label_text s : string) :
  label_pattern label_text s = true <->
  exists star blank,
    s = (label_text ++ star ++ blank)%string /\
    (star = ""%string \/ star = "*"%string) /\
    spaces blank.
Proof.
  unfold label_pattern, label_regex. rewrite matches_denotes.
  rewrite denotes_cat_iff. split.
  - intros (p & rest & -> & P & R). apply denotes_lit in P as ->.
    apply denotes_cat_iff in R as (star & rest' & -> & St & R).
    apply denotes_cat_iff in R as (blank & last & -> & B & L).
    apply denotes_spaces in B. exists star.
    apply denotes_alt_iff in St as [St|St];
      [apply denotes_eps_iff in St | apply denotes_chr_iff in St].
    all: apply denotes_alt_iff in L as [L|L];
      [apply denotes_eps_iff in L as ->
      | apply denotes_chr_iff in L as ->].
    all: try (exists blank; rewrite append_empty_r; now auto).
    all: exists (blank ++ String "010" "")%string;
      split; [reflexivity|]; split; [now auto|];
      apply spaces_append; [exact B|];
      apply spaces_one; right; left; reflexivity.
  - intros (star & blank & -> & St & B).
    exists label_text, (star ++ blank)%string. split; [reflexivity|].
    split; [now apply denotes_lit|].
    apply denotes_cat_iff. exists star, blank. split; [reflexivity|]. split.
    + apply denotes_alt_iff.
      destruct St as [-> | ->]; [left | right]; constructor.
    + apply denotes_cat_iff. exists blank, ""%string.
      rewrite append_empty_r. split; [reflexivity|].
      split; [now apply denotes_spaces|].
      apply denotes_alt_l. constructor.
Qed.

Lemma nearest_div_unique (d d' e : PageElement) :
  nearest_div d e -> nearest_div d' e -> d = d'.
Proof.
  intros (A & D & N) (A' & D' & N').
  destruct A as [S [q E]], A' as [S' [q' E']].
  assert (C : ancestor_or_self d d' \/ ancestor_or_self d' d).
  { pose proof E as X. rewrite E' in X.
    apply app_eq_app in X as [l [[X _]|[X _]]].
    - left. split; [congruence | now exists l].
    - right. split; [congruence | now exists l]. }
  destruct C as [C|C].
  - symmetry. apply N; [split; eauto | exact C | exact D'].
  - apply N'; [split; eauto | exact C | exact D].
Qed.

Lemma first_input_after_unique (d s s' : PageElement) :
  first_input_after d s -> first_input_after d s' -> s = s'.
Proof.
  intros (i & j & L & Lt & -> & P & N) (i' & j' & L' & Lt' & -> & P' & N').
  rewrite L in L' at 1. apply app_inj_tail in L' as [_ <-].
  destruct (Nat.lt_total j j') as [H|[->|H]]; [|reflexivity|].
  - rewrite N' in P by lia. discriminate.
  - rewrite N in P' by lia. discriminate.
Qed.

(** C4, amended: label lookup looks at the first string below the
    container that matches the label pattern and at the nearest div among the
    ancestors of that string, and returns the first following sibling of
    that div that is an input tag, whether or not it comes immediately
    after the div; it returns the empty list when no string matches, when
    the first match has no div above it, or when no following sibling of the
    div is an input.  No case raises. *)
Theorem find_label_element_spec (label_text : string)
    (container : PageElement) :
  (find_all_text (label_pattern label_text) container = [] ->
   find_label_element label_text container = []) /\
  (forall t others,
      find_all_text (label_pattern label_text) container = t :: others ->
      (no_div_above t -> find_label_element label_text container = []) /\
      (forall d,
          nearest_div d t ->
          (forall s, first_input_after d s ->
                     find_label_element label_text container = [s]) /\
          (no_input_after d ->
           find_label_element label_text container = []))).
Proof.
  unfold find_label_element. split; [now intros ->|].
  intros t others ->. cbn [map hd_error].
  pose proof (find_first_div_parent_spec t) as Ht.
  destruct (find_first_div_parent t) as [d'|].
  - pose proof (find_next_sibling_spec d') as Hs. split.
    + intros No. destruct Ht as (A & D & _). now rewrite (No d' A) in D.
    + intros d Hd. rewrite (nearest_div_unique d d' t Hd Ht). split.
      * intros s Fs. destruct (find_next_sibling "input" d') as [s'|].
        -- now rewrite (first_input_after_unique d' s s' Fs Hs).
        -- destruct Fs as (i & j & L & Lt & -> & P & _).
           now rewrite (Hs i j L Lt) in P.
      * intros No. destruct (find_next_sibling "input" d') as [s'|];
          [|reflexivity].
        destruct Hs as (i & j & L & Lt & -> & P & _).
        now rewrite (No i j L Lt) in P.
  - split; [reflexivity|]. intros d (A & D & _). now rewrite (Ht d A) in D.
Qed.

(** ** The elements below an element *)

Lemma node_children_ind (P : node -> Prop) :
  (forall nm a cs, Forall P cs -> P (Tag nm a cs)) ->
  (forall s, P (NavigableString s)) ->
  forall n, P n.
Proof.
  intros HT HS. fix IH 1. intros [nm a cs|s]; [|apply HS].
  apply HT. induction cs as [|c cs IHcs]; constructor; [apply IH | exact IHcs].
Qed.

Lemma in_combine_seq {B} (l : list B) (a i : nat) (x : B) :
  In (i, x) (combine (seq a (length l)) l) <->
  (a <= i)%nat /\ nth_error l (i - a) = Some x.
Proof.
  revert a; induction l as [|y l IH]; intros a; cbn [length seq combine In].
  - split; [easy | intros [_ H]; now destruct (i - a)%nat].
  - rewrite IH. split.
    + intros [[= <- <-] | [L N]].
      * split; [lia|]. now rewrite Nat.sub_diag.
      * split; [lia|]. replace (i - a)%nat with (S (i - S a)) by lia.
        exact N.
    + intros [L N]. destruct (Nat.eq_dec i a) as [->|D].
      * left. rewrite Nat.sub_diag in N. cbn in N. congruence.
      * right. split; [lia|].
        replace (i - a)%nat with (S (i - S a)) in N by lia. exact N.
Qed.

Lemma in_enumerate {B} (l : list B) (i : nat) (x : B) :
  In (i, x) (enumerate l) <-> nth_error l i = Some x.
Proof.
  unfold enumerate. rewrite in_combine_seq, Nat.sub_0_r.
  split; [now intros [_ H] | intros H; split; [lia | exact H]].
Qed.

(** [subpaths] lists the positions that exist below a node, the node itself
    left out. *)
Lemma subpaths_spec (n : node) (q : path) :
  In q (subpaths n) <-> q <> [] /\ exists m, get n q = Some m.
Proof.
  revert q; induction n as [nm a cs IH|s] using node_children_ind; intros q.
  - cbn [subpaths]. rewrite in_flat_map. split.
    + intros ([i ps] & I & Q). apply in_enumerate in I.
      rewrite nth_error_map in I.
      destruct (nth_error cs i) as [c|] eqn:N; [|discriminate].
      injection I as <-. cbn [fst snd] in Q. destruct Q as [<- | Q].
      * split; [discriminate|]. exists c. cbn [get]. now rewrite N.
      * apply in_map_iff in Q as (q' & <- & Q). split; [discriminate|].
        rewrite Forall_forall in IH.
        apply (IH c (nth_error_In _ _ N)) in Q as [_ [m G]].
        exists m. cbn [get]. now rewrite N.
    + intros [Q [m G]]. destruct q as [|i q']; [now elim Q|].
      cbn [get] in G. destruct (nth_error cs i) as [c|] eqn:N; [|discriminate].
      exists (i, subpaths c). split.
      * apply in_enumerate. rewrite nth_error_map, N. reflexivity.
      * cbn [fst snd]. destruct q' as [|j q'']; [now left|]. right.
        apply in_map. rewrite Forall_forall in IH.
        apply (IH c (nth_error_In _ _ N)). split; [discriminate | eauto].
  - cbn [subpaths In]. split; [easy|]. intros [Q [m G]].
    destruct q; [now elim Q | discriminate].
Qed.

(** [descendants] gives exactly the elements that exist strictly below. *)
Lemma descendants_spec (x e : PageElement) :
  In x (descendants e) <-> below x e /\ exists m, here x = Some m.
Proof.
  unfold descendants, below, here. split.
  - destruct (get (soup e) (loc e)) as [n|] eqn:G; [|easy].
    intros I. apply in_map_iff in I as (q & <- & I). cbn [soup loc].
    apply subpaths_spec in I as [Q [m Gm]].
    split; [split; [reflexivity | now exists q]|].
    exists m. now rewrite get_app, G.
  - intros [[S (q & Q & L)] [m Gm]]. rewrite L, S, get_app in Gm.
    destruct (get (soup e) (loc e)) as [n|]; [|discriminate].
    apply in_map_iff. exists q. split.
    + apply elt_eq; cbn [soup loc]; congruence.
    + apply subpaths_spec. split; [exact Q | eauto].
Qed.

(** ** [web_scrap] *)

Section Locate.

Variable css : string -> option (PageElement -> bool).
Variable self : Base.

Lemma web_scrap_returns term st opt label main log found log' :
  web_scrap css self term st opt label main log = (Ok found, log') <->
  web_scrap_try css self term st opt label main = Ok found /\ log' = log.
Proof.
  unfold web_scrap.
  destruct (web_scrap_try css self term st opt label main) as [l|e].
  - split; [now intros [= -> ->] | now intros [[= ->] ->]].
  - destruct (log_error self (exn_msg e) true log) as [e' l'].
    split; [discriminate | now intros [? _]].
Qed.

(** A list comes back only for a container that polling found. *)
Lemma web_scrap_try_container term st opt label main found :
  web_scrap_try css self term st opt label main = Ok found ->
  exists container,
    poll_container css (container_selector_of self main) (sources_of self)
    = Ok (Some container).
Proof.
  unfold web_scrap_try. fold (container_selector_of self main).
  fold (sources_of self).
  destruct (poll_container css (container_selector_of self main)
              (sources_of self)) as [[c|]|e]; cbn [bind];
    [eauto | discriminate | discriminate].
Qed.

Lemma select_ok selector container matches :
  css selector = Some matches ->
  select css selector container = Ok (selected matches container).
Proof. unfold select. now intros ->. Qed.

Lemma select_ok_inv selector container found :
  select css selector container = Ok found ->
  exists matches, css selector = Some matches /\
                  found = selected matches container.
Proof.
  unfold select. destruct (css selector) as [m|]; [|discriminate].
  intros [= <-]. now exists m.
Qed.

(** Locating by selector gives the tags below the chosen container that
    match it. *)
Lemma css_locate_in_container term opt label main log container matches :
  poll_container css (container_selector_of self main) (sources_of self)
  = Ok (Some container) ->
  css term = Some matches ->
  web_scrap css self term CSS_SELECTOR opt label main log
  = (Ok (map Element (selected matches container)), log).
Proof.
  intros P C. apply web_scrap_returns. split; [|reflexivity].
  unfold web_scrap_try. fold (container_selector_of self main).
  fold (sources_of self). rewrite P. cbn [bind].
  now rewrite (select_ok _ _ _ C).
Qed.

(** C10: label lookup never returns more than one element, and neither does
    a locate call by text with the label flag set, however many strings
    match the label. *)
Theorem label_lookup_at_most_one (label_text : string)
    (container : PageElement) :
  (length (find_label_element label_text container) <= 1)%nat /\
  forall opt main log found log',
    web_scrap css self label_text TEXT opt true main log = (Ok found, log') ->
    (length found <= 1)%nat.
Proof.
  assert (L : forall c, (length (find_label_element label_text c) <= 1)%nat).
  { intros c. unfold find_label_element.
    destruct (hd_error _) as [[d|]|]; cbn; try lia.
    destruct (find_next_sibling "input" d); cbn; lia. }
  split; [apply L|].
  intros opt main log found log' H.
  apply web_scrap_returns in H as [H _]. unfold web_scrap_try in H.
  destruct (poll_container css _ _) as [[c|]|e]; cbn [bind] in H;
    try discriminate.
  injection H as <-. rewrite length_map. apply L.
Qed.


End Locate.

(** ** Failures *)

Section Failures.

Variable css : string -> option (PageElement -> bool).
Variable xpath_soup : PageElement -> string.
Variable self : Base.

Lemma web_scrap_try_polled term st opt label main :
  web_scrap_try css self term st opt label main
  = c <- poll_container css (container_selector_of self main)
           (sources_of self) ;;
    match c with
    | None => Raise (mk_exn PyException "Couldn't find container")
    | Some container =>
        match st with
        | TEXT =>
            if label
            then Ok (map Element (find_label_element term container))
            else found <- select css "div > *" container ;;
                 Ok (map Element (filter (text_contains term) found))
        | CSS_SELECTOR =>
            found <- select css term container ;; Ok (map Element found)
        | MIXED =>
            match opt with
            | Some selector =>
                found <- select css selector container ;;
                Ok (map Element (filter (text_contains term) found))
            | None => Ok []
            end
        | SCRIPT =>
            script_result <- execute_script (driver self) term ;;
            Ok (match script_result with
                | PList l => map Value l
                | _ => []
                end)
        | XPATH => Ok []
        end
    end.
Proof. reflexivity. Qed.

Lemma web_scrap_raises f term st opt label main log e :
  test_function self = Some f ->
  web_scrap_try css self term st opt label main = Raise e ->
  web_scrap css self term st opt label main log
  = failure_report f (exn_msg e) log.
Proof.
  intros F H. unfold web_scrap, log_error, failure_report.
  rewrite H, F. now rewrite <- app_assoc.
Qed.

(** C7, amended: a locate call inside a test either returns its list and
    leaves the log alone, or raises one assertion failure after one failed
    log line, with no list; a container missing at the deadline, a selector
    the engine refuses and a script error are reported in this way.  The
    Mixed strategy without a secondary term and the XPath strategy return
    the empty list without a failure.  The existence check by selector or
    path answers false, without a failure, when no container is found or the
    container does not resolve to a live handle; by text or Mixed it fails
    as the locate call does. *)
Theorem failure_reporting (f term : string) (st : ScrapType)
    (opt : option string) (label : bool) (main : option string) (log : Log) :
  test_function self = Some f ->
  ((exists found,
       web_scrap css self term st opt label main log = (Ok found, log)) \/
   (exists message,
       web_scrap css self term st opt label main log
       = failure_report f message log)) /\
  (poll_container css (container_selector_of self main) (sources_of self)
   = Ok None ->
   web_scrap css self term st opt label main log
   = failure_report f "Couldn't find container" log) /\
  (forall container,
      poll_container css (container_selector_of self main) (sources_of self)
      = Ok (Some container) ->
      (st = CSS_SELECTOR -> css term = None ->
       exists message,
         web_scrap css self term st opt label main log
         = failure_report f message log) /\
      (forall selector,
          st = MIXED -> opt = Some selector -> css selector = None ->
          exists message,
            web_scrap css self term st opt label main log
            = failure_report f message log) /\
      (forall e,
          st = SCRIPT -> execute_script (driver self) term = Raise e ->
          web_scrap css self term st opt label main log
          = failure_report f (exn_msg e) log) /\
      (st = MIXED -> opt = None ->
       web_scrap css self term st opt label main log = (Ok [], log)) /\
      (st = XPATH ->
       web_scrap css self term st opt label main log = (Ok [], log))) /\
  (forall by_ position,
      topmost_container css (container_selector_of self main)
                        (page_source (driver self)) = Ok None ->
      element_exists_by css xpath_soup self by_ term main position
      = Ok false) /\
  (forall by_ position container e,
      topmost_container css (container_selector_of self main)
                        (page_source (driver self)) = Ok (Some container) ->
      find_element_by_xpath (driver self) (xpath_soup container) = Raise e ->
      element_exists_by css xpath_soup self by_ term main position
      = Ok false) /\
  (forall position message,
      st = TEXT \/ st = MIXED ->
      web_scrap css self term st opt false main log
      = failure_report f message log ->
      element_exists css xpath_soup self term st position opt main log
      = (Raise (mk_exn AssertionError
                  ("False is not true : "
                   ++ last (PyStr.split "_" f) "" ++ " - " ++ message)%string),
         log ++ [new_line false
                   (last (PyStr.split "_" f) "" ++ " - " ++ message)%string;
                 save_file])).
Proof.
  intros F.
  assert (R : forall e,
             web_scrap_try css self term st opt label main = Raise e ->
             web_scrap css self term st opt label main log
             = failure_report f (exn_msg e) log)
    by (intros e; now apply web_scrap_raises).
  assert (K : forall found,
             web_scrap_try css self term st opt label main = Ok found ->
             web_scrap css self term st opt label main log = (Ok found, log))
    by (intros found H; now apply web_scrap_returns).
  split; [|split; [|split; [|split; [|split]]]].
  - destruct (web_scrap_try css self term st opt label main) as [l|e] eqn:E.
    + left. exists l. now apply K.
    + right. exists (exn_msg e). now apply R.
  - intros P. rewrite (R (mk_exn PyException "Couldn't find container"));
      [reflexivity|].
    rewrite web_scrap_try_polled, P. reflexivity.
  - intros container P. repeat split.
    + intros -> C. eexists. apply R.
      rewrite web_scrap_try_polled, P. cbn [bind]. unfold select.
      rewrite C. reflexivity.
    + intros selector -> -> C. eexists. apply R.
      rewrite web_scrap_try_polled, P. cbn [bind]. unfold select.
      rewrite C. reflexivity.
    + intros e -> E. apply R.
      rewrite web_scrap_try_polled, P. cbn [bind]. rewrite E. reflexivity.
    + intros -> ->. apply K. rewrite web_scrap_try_polled, P. reflexivity.
    + intros ->. apply K. rewrite web_scrap_try_polled, P. reflexivity.
  - intros by_ position T. unfold element_exists_by.
    fold (container_selector_of self main). now rewrite T.
  - intros by_ position container e T X. unfold element_exists_by.
    fold (container_selector_of self main). rewrite T. cbn [bind].
    now rewrite X.
  - intros position message [-> | ->] H; unfold element_exists;
      rewrite H; reflexivity.
Qed.

End Failures.

(** ** [element_exists] *)

(** For a position that is not negative the test on the length reads: at
    least [max(position, 1)] matches. *)
Lemma position_reached_max (len : nat) (position : Z) :
  0 <= position ->
  position_reached len position = (Z.max position 1 <=? Z.of_nat len).
Proof.
  intros H. unfold position_reached.
  destruct (position =? 0) eqn:E.
  - apply Z.eqb_eq in E as ->. cbn [Z.max Z.compare].
    destruct (0 <? Z.of_nat len) eqn:L, (1 <=? Z.of_nat len) eqn:L'; lia.
  - apply Z.eqb_neq in E. now rewrite Z.max_l by lia.
Qed.

Section Existence.

Variable css : string -> option (PageElement -> bool).
Variable xpath_soup : PageElement -> string.
Variable self : Base.

(** C1, amended: for a position [k] that is not negative, the existence
    check by text or Mixed is true iff the locate call returns at least
    [max(k,1)] matches; by path, once the topmost container is found and
    resolves to a live handle, it is true iff the driver finds at least
    [max(k,1)] elements for the path in the live document; by script it is
    the truth value of what the script returns, whatever [k] is. *)
Theorem element_exists_counts (term : string) (position : Z)
    (opt main : option string) (log : Log) :
  0 <= position ->
  (forall st found log',
      st = TEXT \/ st = MIXED ->
      web_scrap css self term st opt false main log = (Ok found, log') ->
      element_exists css xpath_soup self term st position opt main log
      = (Ok (Z.max position 1 <=? Z.of_nat (length found)), log')) /\
  (forall container h element_list,
      topmost_container css (container_selector_of self main)
                        (page_source (driver self)) = Ok (Some container) ->
      find_element_by_xpath (driver self) (xpath_soup container) = Ok h ->
      find_elements (driver self) XPATH_BY term = Ok element_list ->
      element_exists css xpath_soup self term XPATH position opt main log
      = (Ok (Z.max position 1 <=? Z.of_nat (length element_list)), log)) /\
  (forall v,
      execute_script (driver self) term = Ok v ->
      element_exists css xpath_soup self term SCRIPT position opt main log
      = (Ok (truthy v), log)).
Proof.
  intros P. split; [|split].
  - intros st found log' [-> | ->] H; unfold element_exists; rewrite H;
      now rewrite position_reached_max.
  - intros container h element_list T X E.
    unfold element_exists, element_exists_by.
    fold (container_selector_of self main). rewrite T. cbn [bind].
    rewrite X, E. cbn [bind]. now rewrite position_reached_max.
  - intros v E. unfold element_exists. now rewrite E.
Qed.

End Existence.

(** ** [filter_displayed_elements] *)

Lemma mapM_ok_map {A B} (f : A -> result B) (g : A -> B) (xs : list A) :
  Forall (fun x => f x = Ok (g x)) xs -> mapM f xs = Ok (map g xs).
Proof.
  induction 1 as [|x xs E _ IH]; cbn [mapM map]; [reflexivity|].
  now rewrite E, IH.
Qed.

Lemma filterM_ok_filter {A} (p : A -> result bool) (q : A -> bool)
    (xs : list A) :
  Forall (fun x => p x = Ok (q x)) xs -> filterM p xs = Ok (filter q xs).
Proof.
  induction 1 as [|x xs E _ IH]; cbn [filterM filter]; [reflexivity|].
  now rewrite E, IH.
Qed.

Lemma kept_index_bound {B} (keep : nat * B -> bool) (a n i : nat)
    (hs : list B) :
  In i (map fst (filter keep (combine (seq a n) hs))) -> (a <= i)%nat.
Proof.
  intros I. apply in_map_iff in I as ([j h] & <- & I).
  apply filter_In in I as [I _]. apply in_combine_l in I.
  apply in_seq in I. cbn. lia.
Qed.

Lemma not_among (a : nat) (idxs : list nat) :
  (forall i, In i idxs -> (a < i)%nat) -> existsb (Nat.eqb a) idxs = false.
Proof.
  induction idxs as [|i idxs IH]; cbn [existsb]; intros H; [reflexivity|].
  rewrite IH by (intros j J; apply H; now right).
  specialize (H i (or_introl eq_refl)).
  destruct (Nat.eqb_spec a i); [lia | reflexivity].
Qed.

(** Steps 1 to 5 of [filter_displayed_elements]: picking the elements
    whose index survived the test on the handles keeps the elements whose
    own handle passes the test, in their order. *)
Lemma filter_by_index {A B} (handle : A -> B) (keep : B -> bool)
    (xs : list A) (a : nat) :
  map snd
      (filter (fun x =>
                 existsb (Nat.eqb (fst x))
                   (map fst (filter (fun y => keep (snd y))
                               (combine (seq a (length xs))
                                        (map handle xs)))))
              (combine (seq a (length xs)) xs))
  = filter (fun x => keep (handle x)) xs.
Proof.
  revert a; induction xs as [|x xs IH]; intros a; [reflexivity|].
  cbn [length seq map combine filter snd fst].
  set (rest := map fst (filter (fun y : nat * B => keep (snd y))
                          (combine (seq (S a) (length xs))
                                   (map handle xs)))).
  assert (Far : forall i, In i rest -> (a < i)%nat).
  { intros i I. apply kept_index_bound in I. lia. }
  assert (Tail : forall idxs,
             (idxs = rest \/ idxs = a :: rest) ->
             filter (fun x : nat * A => existsb (Nat.eqb (fst x)) idxs)
                    (combine (seq (S a) (length xs)) xs)
             = filter (fun x : nat * A => existsb (Nat.eqb (fst x)) rest)
                      (combine (seq (S a) (length xs)) xs)).
  { intros idxs [-> | ->]; [reflexivity|].
    apply filter_ext_in. intros [j y] I. apply in_combine_l in I.
    apply in_seq in I. cbn [fst existsb].
    destruct (Nat.eqb_spec j a); [lia | reflexivity]. }
  destruct (keep (handle x)) eqn:K; cbn [map fst]; fold rest.
  - rewrite (Tail (a :: rest)) by now right.
    cbn [existsb]. rewrite Nat.eqb_refl. cbn [orb map snd].
    f_equal. apply IH.
  - rewrite (not_among a rest Far). apply IH.
Qed.

Section Displayed.

Variable xpath_soup : PageElement -> string.
Variable self : Base.

(** C6, amended: when every element resolves to a live handle whose
    display state can be read, and the z-index of every displayed element can
    be derived, visibility filtering returns exactly the displayed elements,
    by ascending z-index when [reverse] is false, which is the default, and
    by descending z-index when it is true; the displayed elements of each
    z-index keep their original relative order. *)
Theorem filter_displayed_elements_spec (elements : list PageElement)
    (reverse : bool) :
  (forall x, In x elements ->
             exists b, displayed_in xpath_soup (driver self) x = Ok b) ->
  (forall x, In x elements -> shown xpath_soup (driver self) x = true ->
             has_zindex x = true) ->
  exists kept,
    filter_displayed_elements xpath_soup self elements reverse = Ok kept /\
    Permutation (filter (shown xpath_soup (driver self)) elements) kept /\
    StronglySorted (in_order search_zindex reverse) kept /\
    forall z,
      filter (fun e => zindex_of e =? z) kept
      = filter (fun e => zindex_of e =? z)
               (filter (shown xpath_soup (driver self)) elements).
Proof.
  intros Hd Hz.
  set (d := driver self) in *.
  set (handle := fun x => match find_element_by_xpath d (xpath_soup x) with
                          | Ok h => h
                          | Raise _ => 0%nat
                          end).
  set (flag := fun h => match is_displayed d h with
                        | Ok b => b
                        | Raise _ => false
                        end).
  assert (R : forall x, In x elements ->
                        find_element_by_xpath d (xpath_soup x) = Ok (handle x)
                        /\ is_displayed d (handle x) = Ok (flag (handle x))
                        /\ shown xpath_soup (driver self) x = flag (handle x)).
  { intros x I. destruct (Hd x I) as [b E].
    unfold shown, displayed_in, handle, flag in *. fold d.
    destruct (find_element_by_xpath d (xpath_soup x)) as [h|];
      cbn [bind] in *; [|discriminate].
    destruct (is_displayed d h); [auto | discriminate]. }
  unfold filter_displayed_elements. fold d.
  rewrite (mapM_ok_map _ handle elements)
    by (apply Forall_forall; intros x I; apply (R x I)).
  cbn [bind]. unfold enumerate. rewrite length_map.
  rewrite (filterM_ok_filter _ (fun y => flag (snd y))).
  2:{ apply Forall_forall. intros [i h] I. apply in_combine_r in I.
      apply in_map_iff in I as (x & <- & I). apply (R x I). }
  cbn [bind]. rewrite (filter_by_index handle flag elements 0).
  assert (F : filter (fun x => flag (handle x)) elements
              = filter (shown xpath_soup (driver self)) elements).
  { apply filter_ext_in. intros x I. symmetry. apply (R x I). }
  rewrite F.
  apply (list_sort_spec search_zindex reverse (filter (shown xpath_soup (driver self)) elements)).
  apply Forall_forall. intros x I. apply filter_In in I as [I V].
  specialize (Hz x I V). unfold has_zindex in Hz.
  destruct (search_zindex x) as [z|]; [now exists z | discriminate].
Qed.

End Displayed.

(** ** White space around a text *)

Lemma length_append (a b : string) :
  String.length (a ++ b) = (String.length a + String.length b)%nat.
Proof. induction a as [|x a IH]; cbn; [reflexivity | now rewrite IH]. Qed.

Lemma reverse_append (a b : string) :
  PyStr.reverse (a ++ b) = (PyStr.reverse b ++ PyStr.reverse a)%string.
Proof.
  induction a as [|x a IH]; cbn [append PyStr.reverse].
  - now rewrite append_empty_r.
  - now rewrite IH, append_assoc.
Qed.

Lemma reverse_involutive (s : string) : PyStr.reverse (PyStr.reverse s) = s.
Proof.
  induction s as [|x s IH]; cbn [PyStr.reverse]; [reflexivity|].
  now rewrite reverse_append, IH.
Qed.

Lemma length_reverse (s : string) : String.length (PyStr.reverse s) = String.length s.
Proof.
  induction s as [|x s IH]; cbn [PyStr.reverse]; [reflexivity|].
  rewrite length_append, IH. cbn. lia.
Qed.

Lemma strip_prefix_iff (p s r : string) :
  PyStr.strip_prefix p s = Some r <-> s = (p ++ r)%string.
Proof.
  revert s; induction p as [|a p IH]; intros s; cbn [PyStr.strip_prefix append].
  - split; [now intros [= ->] | now intros ->].
  - destruct s as [|b s]; [split; discriminate|].
    destruct (Ascii.eqb_spec a b) as [->|N].
    + rewrite IH. split; [now intros -> | now intros [= ->]].
    + split; [discriminate | intros [= E _]; now elim N].
Qed.

Lemma drop_one_some (chars : list string) (s r : string) :
  PyStr.drop_one chars s = Some r ->
  exists c, In c chars /\ PyStr.strip_prefix c s = Some r.
Proof.
  unfold PyStr.drop_one. induction chars as [|c chars IH]; cbn [fold_right].
  - discriminate.
  - destruct (PyStr.strip_prefix c s) as [rest|] eqn:E.
    + intros [= <-]. exists c. split; [now left | exact E].
    + intros H. destruct (IH H) as (c' & I & E'). exists c'. split; [now right | exact E'].
Qed.

Lemma drop_one_none (chars : list string) (s : string) :
  PyStr.drop_one chars s = None ->
  forall c, In c chars -> PyStr.strip_prefix c s = None.
Proof.
  unfold PyStr.drop_one. induction chars as [|c chars IH]; cbn [fold_right In].
  - now intros _ c.
  - destruct (PyStr.strip_prefix c s) as [rest|] eqn:E; [discriminate|].
    intros H c' [<- | I]; [exact E | now apply IH].
Qed.

Lemma drop_one_not_none (chars : list string) (s r c : string) :
  In c chars -> PyStr.strip_prefix c s = Some r -> PyStr.drop_one chars s <> None.
Proof.
  intros I E N. now rewrite (drop_one_none _ _ N c I) in E.
Qed.

Section Chars.

Variable chars : list string.

(** No character is empty, and no character starts another. *)
Hypothesis chars_not_empty : forall c, In c chars -> c <> "".
Hypothesis chars_apart :
  forall w s, In w chars -> PyStr.drop_one chars (w ++ s) = Some s.

Lemma drop_one_shorter (s r : string) :
  PyStr.drop_one chars s = Some r -> (String.length r < String.length s)%nat.
Proof.
  intros H. destruct (drop_one_some _ _ _ H) as (c & I & E).
  apply strip_prefix_iff in E as ->. rewrite length_append.
  pose proof (chars_not_empty c I). destruct c; [easy | cbn; lia].
Qed.

Lemma drop_one_empty : PyStr.drop_one chars "" = None.
Proof.
  destruct (PyStr.drop_one chars "") as [r|] eqn:E; [|reflexivity].
  apply drop_one_shorter in E. cbn in E. lia.
Qed.

Lemma drop_all_fuel (n m : nat) (s : string) :
  (String.length s <= n)%nat -> (String.length s <= m)%nat ->
  PyStr.drop_all chars n s = PyStr.drop_all chars m s.
Proof.
  revert m s; induction n as [|n IH]; intros m s Hn Hm.
  - destruct s; [|cbn in Hn; lia].
    destruct m; cbn [PyStr.drop_all]; [reflexivity | now rewrite drop_one_empty].
  - destruct m as [|m].
    + destruct s; [|cbn in Hm; lia]. cbn [PyStr.drop_all]. now rewrite drop_one_empty.
    + cbn [PyStr.drop_all]. destruct (PyStr.drop_one chars s) as [r|] eqn:E; [|reflexivity].
      apply drop_one_shorter in E. apply IH; lia.
Qed.

Lemma drop_all_blank (a v : string) (n : nat) :
  blank_of chars a -> (String.length (a ++ v) <= n)%nat ->
  PyStr.drop_all chars n (a ++ v) = PyStr.drop_all chars (String.length v) v.
Proof.
  intros B; revert n; induction B as [|w s I B IH]; intros n L.
  - now apply drop_all_fuel.
  - rewrite append_assoc in *. rewrite length_append in L.
    pose proof (chars_not_empty w I) as N.
    destruct n as [|n]; [destruct w; [easy | cbn in L; lia]|].
    cbn [PyStr.drop_all]. rewrite (chars_apart w (s ++ v) I). apply IH.
    destruct w; [easy | cbn in L; lia].
Qed.

Lemma drop_all_split (n : nat) (s : string) :
  exists a, blank_of chars a /\ s = (a ++ PyStr.drop_all chars n s)%string.
Proof.
  revert s; induction n as [|n IH]; intros s; cbn [PyStr.drop_all].
  - exists ""; split; [constructor | reflexivity].
  - destruct (PyStr.drop_one chars s) as [r|] eqn:E.
    + destruct (drop_one_some _ _ _ E) as (c & I & P).
      apply strip_prefix_iff in P as ->.
      destruct (IH r) as (a & B & Er). exists (c ++ a)%string.
      split; [now constructor|]. rewrite append_assoc. now rewrite <- Er.
    + exists ""; split; [constructor | reflexivity].
Qed.

Lemma drop_all_done (n : nat) (s : string) :
  (String.length s <= n)%nat -> PyStr.drop_one chars (PyStr.drop_all chars n s) = None.
Proof.
  revert s; induction n as [|n IH]; intros s L; cbn [PyStr.drop_all].
  - destruct s; [apply drop_one_empty | cbn in L; lia].
  - destruct (PyStr.drop_one chars s) as [r|] eqn:E; [|exact E].
    apply IH. apply drop_one_shorter in E. lia.
Qed.

Lemma blank_of_append (a b : string) :
  blank_of chars a -> blank_of chars b -> blank_of chars (a ++ b).
Proof.
  induction 1 as [|w s I B IH]; intros Bb; [exact Bb|].
  rewrite append_assoc. constructor; auto.
Qed.

End Chars.

Lemma blank_of_reverse (chars : list string) (s : string) :
  blank_of chars s -> blank_of (map PyStr.reverse chars) (PyStr.reverse s).
Proof.
  induction 1 as [|w s I B IH]; [constructor|].
  rewrite reverse_append. apply blank_of_append; [exact IH|].
  rewrite <- (append_empty_r (PyStr.reverse w)). constructor; [|constructor].
  now apply in_map.
Qed.

Lemma whitespace_not_empty (c : string) : In c PyStr.whitespace -> c <> "".
Proof.
  intros I E. subst c. cbn in I.
  repeat (destruct I as [I | I]; [discriminate I|]). exact I.
Qed.


Lemma whitespace_apart (w s : string) :
  In w PyStr.whitespace -> PyStr.drop_one PyStr.whitespace (w ++ s) = Some s.
Proof.
  unfold PyStr.whitespace. cbn [map PyStr.bytes fold_right In].
  intros I. repeat (destruct I as [<- | I]; [reflexivity|]). contradiction.
Qed.

Lemma reversed_not_empty (c : string) :
  In c (map PyStr.reverse PyStr.whitespace) -> c <> "".
Proof.
  intros I E. subst c. cbn in I.
  repeat (destruct I as [I | I]; [discriminate I|]). exact I.
Qed.

Lemma reversed_apart (w s : string) :
  In w (map PyStr.reverse PyStr.whitespace) ->
  PyStr.drop_one (map PyStr.reverse PyStr.whitespace) (w ++ s) = Some s.
Proof.
  unfold PyStr.whitespace. cbn [map PyStr.bytes fold_right In PyStr.reverse append].
  intros I. repeat (destruct I as [<- | I]; [reflexivity|]). contradiction.
Qed.

Lemma reversed_twice : map PyStr.reverse (map PyStr.reverse PyStr.whitespace) = PyStr.whitespace.
Proof. reflexivity. Qed.

(** A character that starts in a text and ends after it. *)
Lemma strip_prefix_straddle (c m t r : string) :
  PyStr.strip_prefix c (m ++ t) = Some r -> PyStr.strip_prefix c m = None ->
  exists c2, c = (m ++ c2)%string /\ t = (c2 ++ r)%string /\ c2 <> "".
Proof.
  revert m; induction c as [|x c IH]; intros m; [discriminate 2|].
  destruct m as [|y m]; cbn [append].
  - intros P _. apply strip_prefix_iff in P. now exists (String x c).
  - cbn [PyStr.strip_prefix]. destruct (Ascii.eqb_spec x y) as [->|N]; [|discriminate].
    intros P Q. destruct (IH m P Q) as (c2 & -> & -> & N2). now exists c2.
Qed.

Lemma in_proper_tails (m c2 : string) :
  m <> "" -> c2 <> "" -> In c2 (proper_tails (m ++ c2)).
Proof.
  intros Nm N2. induction m as [|x m IH]; [easy|].
  destruct m as [|y m]; cbn [append proper_tails].
  - destruct c2; [easy | now left].
  - right. now apply IH.
Qed.

(** No white-space character holds, after its first byte, the first byte of
    a white-space character. *)
Lemma whitespace_tails :
  forallb (fun c =>
             forallb (fun t =>
                        forallb (fun w => negb (same_head t w)) PyStr.whitespace)
                     (proper_tails c))
          PyStr.whitespace = true.
Proof. vm_compute. reflexivity. Qed.

Lemma whitespace_straddle (m b : string) :
  PyStr.drop_one PyStr.whitespace m = None -> m <> "" -> blank b ->
  PyStr.drop_one PyStr.whitespace (m ++ b) = None.
Proof.
  intros D Nm B.
  destruct (PyStr.drop_one PyStr.whitespace (m ++ b)) as [r|] eqn:E; [exfalso|reflexivity].
  destruct (drop_one_some _ _ _ E) as (c & I & P).
  pose proof (drop_one_none _ _ D c I) as Q.
  destruct (strip_prefix_straddle c m b r P Q) as (c2 & -> & Eb & N2).
  destruct B as [|w s Iw B]; [now destruct c2|].
  pose proof (whitespace_not_empty w Iw) as Nw.
  assert (H : same_head c2 w = true).
  { destruct c2 as [|p c2]; [easy|]. destruct w as [|q w]; [easy|].
    cbn [append] in Eb. injection Eb as -> _. cbn. apply Ascii.eqb_refl. }
  pose proof whitespace_tails as T.
  rewrite forallb_forall in T. specialize (T _ I).
  rewrite forallb_forall in T. specialize (T _ (in_proper_tails m c2 Nm N2)).
  rewrite forallb_forall in T. specialize (T _ Iw).
  now rewrite H in T.
Qed.

Lemma lstrip_blank (a v : string) : blank a -> PyStr.lstrip (a ++ v) = PyStr.lstrip v.
Proof.
  intros B. unfold PyStr.lstrip.
  now apply (drop_all_blank PyStr.whitespace whitespace_not_empty whitespace_apart).
Qed.

Lemma rstrip_blank (v b : string) : blank b -> PyStr.rstrip (v ++ b) = PyStr.rstrip v.
Proof.
  intros B. unfold PyStr.rstrip. rewrite reverse_append. f_equal.
  rewrite (drop_all_blank _ reversed_not_empty reversed_apart
             (PyStr.reverse b) (PyStr.reverse v)).
  - now rewrite length_reverse.
  - now apply blank_of_reverse.
  - rewrite <- reverse_append, length_reverse. apply le_n.
Qed.

Lemma lstrip_split (s : string) :
  exists a, blank a /\ s = (a ++ PyStr.lstrip s)%string.
Proof. apply drop_all_split. Qed.

Lemma rstrip_split (s : string) :
  exists b, blank b /\ s = (PyStr.rstrip s ++ b)%string.
Proof.
  unfold PyStr.rstrip.
  destruct (drop_all_split (map PyStr.reverse PyStr.whitespace)
              (String.length s) (PyStr.reverse s)) as (a & B & E).
  exists (PyStr.reverse a). split.
  - unfold blank. rewrite <- reversed_twice. now apply blank_of_reverse.
  - rewrite <- reverse_append, <- E. symmetry. apply reverse_involutive.
Qed.

Lemma lstrip_followed (m b : string) :
  blank b ->
  PyStr.lstrip (m ++ b)
  = match PyStr.lstrip m with
    | EmptyString => EmptyString
    | String _ _ => (PyStr.lstrip m ++ b)%string
    end.
Proof.
  intros B. destruct (lstrip_split m) as (a & Ba & E).
  pose proof (drop_all_done PyStr.whitespace whitespace_not_empty
                (String.length m) m (le_n _)) as D.
  fold (PyStr.lstrip m) in D. remember (PyStr.lstrip m) as m' eqn:Em.
  rewrite E at 1. rewrite append_assoc, (lstrip_blank a _ Ba).
  destruct m' as [|x m']; cbn [append].
  - rewrite <- (append_empty_r b). rewrite (lstrip_blank b "" B). reflexivity.
  - unfold PyStr.lstrip. cbn [String.length PyStr.drop_all].
    change (String x (m' ++ b)) with (String x m' ++ b)%string.
    now rewrite (whitespace_straddle (String x m') b D).
Qed.

(** [PyStr.strip] takes away the white space around a text, whatever is in
    the text. *)
Lemma strip_padding (a m b : string) :
  blank a -> blank b -> PyStr.strip (a ++ m ++ b) = PyStr.strip m.
Proof.
  intros Ba Bb. unfold PyStr.strip.
  rewrite (lstrip_blank a _ Ba), (lstrip_followed m b Bb).
  destruct (PyStr.lstrip m) as [|x m']; [reflexivity|].
  now apply rstrip_blank.
Qed.

Lemma strip_split (s : string) :
  exists a b, blank a /\ blank b /\ s = (a ++ PyStr.strip s ++ b)%string.
Proof.
  destruct (lstrip_split s) as (a & Ba & Ea).
  destruct (rstrip_split (PyStr.lstrip s)) as (b & Bb & Eb).
  exists a, b. split; [exact Ba|]. split; [exact Bb|].
  unfold PyStr.strip. now rewrite <- Eb.
Qed.

(** X1: [compare_field_values] records nothing when the two values are
    one text with white space around it, whatever the white space on
    either side of either value, and in every other case it appends its
    message after the errors already recorded. *)
Theorem compare_field_values_padding (value : Type) (str : value -> string)
    (field : string) (user_value captured_value : value) (message : string)
    (errors : list string) :
  (same_but_padding (str user_value) (str captured_value) ->
   compare_field_values str field user_value captured_value message errors
   = errors) /\
  (~ same_but_padding (str user_value) (str captured_value) ->
   compare_field_values str field user_value captured_value message errors
   = errors ++ [message]).
Proof.
  unfold compare_field_values. split.
  - intros (m & a & b & c & d & Ba & Bb & Bc & Bd & -> & ->).
    rewrite !strip_padding by assumption. now rewrite String.eqb_refl.
  - intros N.
    destruct (String.eqb_spec (PyStr.strip (str user_value))
                              (PyStr.strip (str captured_value))) as [E|_];
      [|reflexivity].
    elim N. destruct (strip_split (str user_value)) as (a & b & Ba & Bb & Eu).
    destruct (strip_split (str captured_value)) as (c & d & Bc & Bd & Ec).
    exists (PyStr.strip (str user_value)), a, b, c, d.
    rewrite E at 2. auto 10.
Qed.

(** ** Field comparison and the verdict *)

Lemma assert_result_passes (self : Base) (f : string) (expected : bool)
    (errors : list string) (log : Log) :
  test_function self = Some f ->
  (fst (assert_result self expected errors log) = Ok tt <-> errors = []).
Proof.
  intros F. unfold assert_result. rewrite F.
  destruct errors as [|e errors], expected; cbn; split;
    try reflexivity; discriminate.
Qed.

(** X2: inside a test, [assert_result] passes exactly when no error was
    recorded, whichever outcome the test expects; either way it empties the
    error list and adds one line to the log, which it then saves. *)
Theorem assert_result_verdict (self : Base) (f : string) (expected : bool)
    (errors : list string) (log : Log) :
  test_function self = Some f ->
  (fst (assert_result self expected errors log) = Ok tt <-> errors = []) /\
  fst (snd (assert_result self expected errors log)) = [] /\
  exists line,
    snd (snd (assert_result self expected errors log))
    = log ++ [new_line (match errors with [] => true | _ => false end) line;
              save_file].
Proof.
  intros F. split; [now apply (assert_result_passes self f)|].
  unfold assert_result. rewrite F.
  destruct errors as [|e errors]; cbn [fst snd].
  - split; [reflexivity|]. exists ""%string. now rewrite <- app_assoc.
  - split; [reflexivity|]. eexists. now rewrite <- app_assoc.
Qed.

(** X3: a test that starts without errors, compares one field and then
    calls [AssertTrue] passes exactly when the two values are equal once
    stripped. *)
Theorem compare_then_AssertTrue (value : Type) (str : value -> string)
    (self : Base) (f field : string) (user_value captured_value : value)
    (message : string) (log : Log) :
  test_function self = Some f ->
  (fst (AssertTrue self
          (compare_field_values str field user_value captured_value
                                message [])
          log) = Ok tt
   <-> PyStr.strip (str user_value) = PyStr.strip (str captured_value)).
Proof.
  intros F. unfold AssertTrue.
  rewrite (assert_result_passes self f true _ log F).
  unfold compare_field_values.
  destruct (String.eqb_spec (PyStr.strip (str user_value))
                            (PyStr.strip (str captured_value))) as [E|N];
    cbn [negb app].
  - now split.
  - split; [discriminate | intros E; now elim N].
Qed.

(** ** Splitting and joining *)

Lemma concat_cons (sep x : string) (l : list string) :
  l <> [] -> String.concat sep (x :: l) = (x ++ sep ++ String.concat sep l)%string.
Proof. destruct l; [now intros N | reflexivity]. Qed.

Lemma concat_push (sep piece : string) (d : ascii) (rest : list string) :
  String.concat sep (String d piece :: rest)
  = String d (String.concat sep (piece :: rest)).
Proof. destruct rest; reflexivity. Qed.

(** Joining the pieces of [s.split(sep)] with [sep] gives [s] back. *)
Lemma split_join (c : ascii) (sep' s : string) :
  String.concat (String c sep') (PyStr.split (String c sep') s) = s.
Proof.
  unfold PyStr.split. set (sep := String c sep').
  remember (String.length s) as n eqn:Hn.
  revert s Hn; induction n as [n IH] using lt_wf_ind; intros s Hn.
  destruct s as [|d s]; [reflexivity|].
  destruct (String.prefix sep (String d s)) eqn:P.
  - destruct (prefix_decompose _ _ P) as [rest E]. rewrite E.
    unfold sep at 2 3. rewrite split_go_at_sep. fold sep.
    destruct (split_go_cons sep 0 rest) as (p & r & Er).
    rewrite concat_cons by (rewrite Er; discriminate).
    cbn [append]. f_equal.
    apply (IH (String.length rest)); [|reflexivity].
    rewrite Hn, E. unfold sep. cbn [append String.length].
    clear. induction sep' as [|x sep' IHs]; cbn [append String.length]; lia.
  - cbn [PyStr.split_go]. rewrite P.
    destruct (split_go_cons sep 0 s) as (p & r & Er). rewrite Er.
    rewrite concat_push, <- Er. f_equal.
    apply (IH (String.length s)); [|reflexivity].
    rewrite Hn. cbn [String.length]. lia.
Qed.

Lemma prefix_empty (s : string) : String.prefix "" s = true.
Proof. now destruct s. Qed.

(** No piece of a split at one character holds that character. *)
Lemma split_char_pieces (c : ascii) (s : string) :
  Forall (fun piece => PyStr.has_char c piece = false)
         (PyStr.split (String c "") s).
Proof.
  unfold PyStr.split. induction s as [|d s IH]; [now repeat constructor|].
  cbn [PyStr.split_go]. rewrite prefix_cons, prefix_empty.
  destruct (ascii_dec c d) as [->|N].
  - constructor; [reflexivity|]. cbn [String.length Nat.sub]. exact IH.
  - destruct (split_go_cons (String c "") 0 s) as (p & r & E).
    rewrite E in *.
    apply Forall_cons_iff in IH as [Hp Hr]. constructor; [|exact Hr].
    cbn [PyStr.has_char]. rewrite Hp.
    apply Ascii.eqb_neq in N. now rewrite N.
Qed.

Lemma concat_last (sep : string) (l : list string) :
  l <> [] ->
  String.concat sep l = last l ""%string \/
  exists pre, String.concat sep l = (pre ++ sep ++ last l "")%string.
Proof.
  induction l as [|x l IH]; [now intros N|]. intros _.
  destruct l as [|y r]; [now left|]. right.
  rewrite concat_cons by discriminate.
  change (last (x :: y :: r) ""%string) with (last (y :: r) ""%string).
  destruct IH as [E|[pre E]]; [discriminate | |]; rewrite E.
  - now exists x.
  - exists (x ++ sep ++ pre)%string. now rewrite !append_assoc.
Qed.

Lemma in_last {B} (l : list B) (d : B) : l <> [] -> In (last l d) l.
Proof.
  induction l as [|x l IH]; [now intros N|]. intros _.
  destruct l as [|y r]; [now left|]. right. apply IH. discriminate.
Qed.

(** X4: inside the test function [f], [log_error] raises an assertion
    failure and logs one failed line under the tag of the test case, then
    saves the log; the tag is what follows the last underscore of [f] (all
    of [f] when it has none) and holds no underscore itself. *)
Theorem log_error_tag (self : Base) (f message : string) (log : Log) :
  test_function self = Some f ->
  exists tag,
    log_error self message true log
    = (mk_exn AssertionError
         ("False is not true : " ++ tag ++ " - " ++ message)%string,
       log ++ [new_line false (tag ++ " - " ++ message)%string; save_file]) /\
    PyStr.has_char "_" tag = false /\
    (f = tag \/ exists pre, f = (pre ++ "_" ++ tag)%string).
Proof.
  intros F. exists (last (PyStr.split "_" f) ""%string).
  unfold log_error. rewrite F. split; [now rewrite <- app_assoc|].
  destruct (split_go_cons "_" 0 f) as (p & r & E). fold (PyStr.split "_" f) in E.
  split.
  - pose proof (split_char_pieces "_" f) as A. rewrite Forall_forall in A.
    apply A. rewrite E. apply in_last. discriminate.
  - assert (N : PyStr.split "_" f <> []) by (rewrite E; discriminate).
    pose proof (concat_last "_" _ N) as C.
    now rewrite (split_join "_" "" f) in C.
Qed.

(** ** [select_combo] *)

Lemma find_first {B} (p : B -> bool) (l : list B) (x : B) :
  find p l = Some x ->
  p x = true /\
  exists before after,
    l = before ++ x :: after /\ Forall (fun y => p y = false) before.
Proof.
  induction l as [|y l IH]; cbn [find]; [discriminate|].
  destruct (p y) eqn:E.
  - intros [= ->]. split; [exact E|]. now exists [], l.
  - intros H. destruct (IH H) as (Px & before & after & -> & F).
    split; [exact Px|]. exists (y :: before), after.
    split; [reflexivity | now constructor].
Qed.

Lemma find_nothing {B} (p : B -> bool) (l : list B) :
  find p l = None -> Forall (fun y => p y = false) l.
Proof.
  induction l as [|y l IH]; cbn [find]; [constructor|].
  destruct (p y) eqn:E; [discriminate|]. intros H. constructor; auto.
Qed.

Lemma find_ext {B} (p q : B -> bool) (l : list B) :
  (forall x, p x = q x) -> find p l = find q l.
Proof.
  intros E. induction l as [|y l IH]; cbn [find]; [reflexivity|].
  now rewrite E, IH.
Qed.

(** The test of the loop, [value == text[0:len(value)]], is the prefix
    test. *)
Lemma slice_is_prefix (value text : string) :
  String.eqb value (substring 0 (String.length value) text)
  = String.prefix value text.
Proof.
  destruct (String.prefix value text) eqn:P.
  - apply prefix_correct in P. rewrite P. apply String.eqb_refl.
  - apply String.eqb_neq. intros E. symmetry in E.
    apply prefix_correct in E. congruence.
Qed.

(** X5: when [select_combo] returns, the text it selected and returns
    starts with the value asked for: it is the first option that starts with
    the value, or the value itself when no option does. *)
Theorem select_combo_first_match (self : Base)
    (option_texts : WebElement -> result (list string))
    (select_by_visible_text : WebElement -> string -> result unit)
    (id value chosen : string) :
  select_combo self option_texts select_by_visible_text id value = Ok chosen ->
  String.prefix value chosen = true /\
  exists combo options,
    option_texts combo = Ok options /\
    select_by_visible_text combo chosen = Ok tt /\
    ((exists before after,
         options = before ++ chosen :: after /\
         Forall (fun text => String.prefix value text = false) before) \/
     (chosen = value /\
      Forall (fun text => String.prefix value text = false) options)).
Proof.
  unfold select_combo. intros H.
  destruct (find_element_by_xpath (driver self) _) as [combo|];
    cbn [bind] in H; [|discriminate].
  destruct (option_texts combo) as [options|] eqn:O; cbn [bind] in H;
    [|discriminate].
  rewrite (find_ext _ (String.prefix value) options
             (slice_is_prefix value)) in H.
  destruct (find (String.prefix value) options) as [text|] eqn:F.
  - destruct (select_by_visible_text combo text) as [[]|] eqn:S;
      cbn [bind] in H; [|discriminate].
    injection H as <-. destruct (find_first _ _ _ F) as (P & D).
    split; [exact P|]. exists combo, options. auto.
  - destruct (select_by_visible_text combo value) as [[]|] eqn:S;
      cbn [bind] in H; [|discriminate].
    injection H as <-. split.
    + rewrite <- (append_empty_r value) at 2. apply prefix_append.
    + exists combo, options. split; [exact O|]. split; [exact S|].
      right. split; [reflexivity | now apply find_nothing].
Qed.

(** ** The topmost container *)

Lemma filter_head {B} (p : B -> bool) (l r : list B) (c : B) :
  filter p l = c :: r ->
  exists before after,
    l = before ++ c :: after /\ Forall (fun x => p x = false) before.
Proof.
  induction l as [|y l IH]; cbn [filter]; [discriminate|].
  destruct (p y) eqn:E.
  - intros [= -> _]. now exists [], l.
  - intros H. destruct (IH H) as (before & after & -> & F).
    exists (y :: before), after. split; [reflexivity | now constructor].
Qed.

Lemma list_sort_returns_perm {B} (key : B -> result Z) (reverse : bool)
    (xs sorted : list B) :
  list_sort key reverse xs = Ok sorted -> Permutation xs sorted.
Proof.
  intros E.
  destruct (list_sort_spec key reverse xs (list_sort_ok_inv key reverse _ _ E))
    as (sorted' & E' & P & _).
  congruence.
Qed.

Section Containers.

Variable css : string -> option (PageElement -> bool).

(** X6: the container chosen in a snapshot is a candidate of the greatest
    z-index, and the earliest such candidate of the document: the
    candidates before it have a smaller z-index and those after it none
    greater. *)
Theorem topmost_container_highest (container_selector : string) (soup : node)
    (c : PageElement) :
  topmost_container css container_selector soup = Ok (Some c) ->
  exists candidates before after,
    select css container_selector (mk_elt soup []) = Ok candidates /\
    candidates = before ++ c :: after /\
    Forall (fun x => zindex_of x < zindex_of c) before /\
    Forall (fun x => zindex_of x <= zindex_of c) after.
Proof.
  unfold topmost_container. intros H.
  destruct (select css container_selector (mk_elt soup []))
    as [candidates|]; cbn [bind] in H; [|discriminate].
  destruct (zindex_sort candidates true) as [ranked|] eqn:Z; cbn [bind] in H;
    [|discriminate].
  destruct ranked as [|c' rest]; [discriminate|]. injection H as ->.
  unfold zindex_sort in Z.
  destruct (list_sort_spec search_zindex true candidates
              (list_sort_ok_inv search_zindex true _ _ Z))
    as (ranked & Z' & P & S & F).
  rewrite Z in Z'. injection Z' as <-.
  assert (Le : forall x, In x candidates -> zindex_of x <= zindex_of c).
  { intros x I. apply (Permutation_in _ P) in I as [<- | I]; [lia|].
    apply StronglySorted_inv in S as [_ S]. rewrite Forall_forall in S.
    exact (S x I). }
  specialize (F (zindex_of c)). cbn [filter] in F.
  rewrite Z.eqb_refl in F. symmetry in F.
  destruct (filter_head _ _ _ _ F) as (before & after & -> & B).
  exists (before ++ c :: after), before, after.
  split; [reflexivity|]. split; [reflexivity|]. split.
  - apply Forall_forall. intros x I. rewrite Forall_forall in B.
    specialize (B x I). apply Z.eqb_neq in B.
    specialize (Le x (in_or_app _ _ _ (or_introl I))).
    unfold zindex_of in *. lia.
  - apply Forall_forall. intros x I. apply Le. apply in_or_app. right.
    now right.
Qed.

(** X7: a snapshot gives no container exactly when the container selector
    selects nothing in it. *)
Theorem topmost_container_none (container_selector : string) (soup : node) :
  topmost_container css container_selector soup = Ok None <->
  select css container_selector (mk_elt soup []) = Ok [].
Proof.
  unfold topmost_container. split.
  - intros H.
    destruct (select css container_selector (mk_elt soup []))
      as [candidates|]; cbn [bind] in H; [|discriminate].
    destruct (zindex_sort candidates true) as [ranked|] eqn:Z;
      cbn [bind] in H; [|discriminate].
    destruct ranked as [|c rest]; [|discriminate].
    apply list_sort_returns_perm in Z.
    apply Permutation_sym, Permutation_nil in Z. now rewrite Z.
  - now intros ->.
Qed.

(** X8: polling answers with the topmost container of the first snapshot
    that has one, and finds no container exactly when no snapshot taken
    before the deadline has one. *)
Theorem poll_container_first (container_selector : string)
    (sources : list node) :
  (forall c,
      poll_container css container_selector sources = Ok (Some c) <->
      exists earlier soup later,
        sources = earlier ++ soup :: later /\
        Forall (fun s => topmost_container css container_selector s = Ok None)
               earlier /\
        topmost_container css container_selector soup = Ok (Some c)) /\
  (poll_container css container_selector sources = Ok None <->
   Forall (fun s => topmost_container css container_selector s = Ok None)
          sources).
Proof.
  induction sources as [|s sources [IHs IHn]]; cbn [poll_container].
  - split.
    + intros c. split; [discriminate|].
      intros (earlier & soup & later & E & _). now destruct earlier.
    + split; [constructor | reflexivity].
  - destruct (topmost_container css container_selector s) as [[c'|]|e] eqn:T;
      cbn [bind].
    + split.
      * intros c. split.
        -- intros [= <-]. exists [], s, sources. auto.
        -- intros (earlier & soup & later & E & F & Tc).
           destruct earlier as [|s' earlier]; cbn [app] in E;
             injection E as <- _.
           ++ congruence.
           ++ apply Forall_cons_iff in F as [F _]. congruence.
      * split; [discriminate|]. intros F.
        apply Forall_cons_iff in F as [F _]. congruence.
    + split.
      * intros c. rewrite IHs. split.
        -- intros (earlier & soup & later & -> & F & Tc).
           exists (s :: earlier), soup, later.
           split; [reflexivity|]. split; [now constructor | exact Tc].
        -- intros (earlier & soup & later & E & F & Tc).
           destruct earlier as [|s' earlier]; cbn [app] in E;
             injection E as <- E.
           ++ congruence.
           ++ apply Forall_cons_iff in F as [_ F].
              exists earlier, soup, later. auto.
      * rewrite IHn. split; [now constructor|].
        intros F. now apply Forall_cons_iff in F as [_ F].
    + split.
      * intros c. split; [discriminate|].
        intros (earlier & soup & later & E & F & Tc).
        destruct earlier as [|s' earlier]; cbn [app] in E;
          injection E as <- _.
        -- congruence.
        -- apply Forall_cons_iff in F as [F _]. congruence.
      * split; [discriminate|]. intros F.
        apply Forall_cons_iff in F as [F _]. congruence.
Qed.

End Containers.

(** ** Sorting twice, and the default order *)

Section SortAgain.

Context {A : Type}.
Variable key : A -> result Z.

Lemma sort_keyed_fixed (l : list (Z * A)) :
  StronglySorted key_le l -> sort_keyed l = l.
Proof.
  induction 1 as [|[k x] l S IH F]; cbn [sort_keyed]; [reflexivity|].
  rewrite IH. destruct l as [|[k' y] l]; [reflexivity|].
  cbn [insert_keyed]. apply Forall_cons_iff in F as [F _].
  unfold key_le in F; cbn [fst] in F.
  destruct (k <=? k') eqn:E; [reflexivity | lia].
Qed.

Lemma ordered_fixed (reverse : bool) (l : list (Z * A)) :
  ordered reverse (ordered reverse l) = ordered reverse l.
Proof.
  destruct reverse; cbn [ordered].
  - rewrite rev_involutive. f_equal. apply sort_keyed_fixed, sort_keyed_sorted.
  - apply sort_keyed_fixed, sort_keyed_sorted.
Qed.

Lemma redecorate (l : list (Z * A)) :
  Forall (fun p => fst p = key_of key (snd p)) l ->
  map (decorate key) (map snd l) = l.
Proof.
  induction 1 as [|[k x] l E _ IH]; cbn [map]; [reflexivity|].
  rewrite IH. unfold decorate. cbn [fst snd] in *. now rewrite E.
Qed.

(** Sorting what a sort returned changes nothing. *)
Lemma list_sort_again (reverse : bool) (xs sorted : list A) :
  list_sort key reverse xs = Ok sorted ->
  list_sort key reverse sorted = Ok sorted.
Proof.
  intros E. pose proof (list_sort_ok_inv key reverse _ _ E) as H.
  pose proof (list_sort_returns_perm key reverse _ _ E) as P.
  rewrite (list_sort_ok key reverse xs H) in E. injection E as <-.
  set (O := ordered reverse (map (decorate key) xs)) in *.
  assert (F : Forall (fun p => fst p = key_of key (snd p)) O)
    by apply (decorated_pairs key O xs), ordered_perm.
  rewrite list_sort_ok.
  - rewrite (redecorate O F). unfold O. now rewrite ordered_fixed.
  - apply Forall_forall. intros x I.
    apply (Permutation_in _ (Permutation_sym P)) in I.
    rewrite Forall_forall in H. now apply H.
Qed.

End SortAgain.

(** X9: [zindex_sort] is idempotent: sorting the list it returned, with the
    same flag, returns that list unchanged. *)
Theorem zindex_sort_idempotent (elements sorted : list PageElement)
    (reverse : bool) :
  zindex_sort elements reverse = Ok sorted ->
  zindex_sort sorted reverse = Ok sorted.
Proof. apply list_sort_again. Qed.

(** X10: called without the flag ([reverse=False]) on elements whose
    z-indexes can all be derived, [zindex_sort] returns them by ascending
    z-index, the elements of each z-index in their original order. *)
Theorem zindex_sort_default_ascending (elements : list PageElement) :
  forallb has_zindex elements = true ->
  exists sorted,
    zindex_sort elements false = Ok sorted /\
    StronglySorted (fun a b => zindex_of a <= zindex_of b) sorted /\
    forall z, filter (fun e => zindex_of e =? z) sorted
              = filter (fun e => zindex_of e =? z) elements.
Proof.
  intros H.
  destruct (list_sort_spec search_zindex false elements (has_zindex_all _ H))
    as (sorted & E & _ & S & F).
  exists sorted. split; [exact E|]. split; [exact S | exact F].
Qed.

(** ** The position of the existence check *)

Lemma position_reached_below (len : nat) (j k : Z) :
  0 <= j <= k ->
  position_reached len k = true -> position_reached len j = true.
Proof.
  unfold position_reached. intros J.
  destruct (Z.eqb_spec k 0), (Z.eqb_spec j 0);
    rewrite ?Z.ltb_lt, ?Z.leb_le; lia.
Qed.

Lemma position_reached_negative (len : nat) (position : Z) :
  position < 0 -> position_reached len position = true.
Proof.
  unfold position_reached. intros N.
  destruct (Z.eqb_spec position 0); rewrite ?Z.ltb_lt, ?Z.leb_le; lia.
Qed.

Section Positions.

Variable css : string -> option (PageElement -> bool).
Variable xpath_soup : PageElement -> string.
Variable self : Base.

(** X11: with a negative position the existence check by text or Mixed is
    true as soon as the locate call returns, even when it returns no match
    at all. *)
Theorem element_exists_negative_position (term : string) (st : ScrapType)
    (position : Z) (opt main : option string) (log log' : Log)
    (found : list item) :
  position < 0 ->
  st = TEXT \/ st = MIXED ->
  web_scrap css self term st opt false main log = (Ok found, log') ->
  element_exists css xpath_soup self term st position opt main log
  = (Ok true, log').
Proof.
  intros N [-> | ->] H; unfold element_exists; rewrite H;
    now rewrite position_reached_negative.
Qed.

(** X12: the existence check is monotone in the position: when it is true at
    a position [k], it is true, with the same log, at every position from 0
    to [k]. *)
Theorem element_exists_smaller_position (term : string) (st : ScrapType)
    (j k : Z) (opt main : option string) (log log' : Log) :
  0 <= j <= k ->
  element_exists css xpath_soup self term st k opt main log = (Ok true, log') ->
  element_exists css xpath_soup self term st j opt main log = (Ok true, log').
Proof.
  intros J. unfold element_exists.
  assert (B : forall by_,
             element_exists_by css xpath_soup self by_ term main k = Ok true ->
             element_exists_by css xpath_soup self by_ term main j = Ok true).
  { intros by_. unfold element_exists_by.
    destruct (topmost_container css _ _) as [[c|]|e]; cbn [bind]; try easy.
    destruct (find_element_by_xpath (driver self) (xpath_soup c)); [|easy].
    destruct (find_elements (driver self) by_ term) as [l|]; cbn [bind];
      [|easy].
    intros [= H]. now rewrite (position_reached_below _ j k J H). }
  destruct st.
  - destruct (web_scrap css self term TEXT opt false main log) as [[l|e] lg];
      [|easy].
    intros [= H <-]. now rewrite (position_reached_below _ j k J H).
  - intros [= H <-]. now rewrite (B _ H).
  - intros [= H <-]. now rewrite (B _ H).
  - destruct (web_scrap css self term MIXED opt false main log) as [[l|e] lg];
      [|easy].
    intros [= H <-]. now rewrite (position_reached_below _ j k J H).
  - easy.
Qed.

End Positions.

(** ** Elements that do not resolve *)

Lemma mapM_raises_at {B C} (f : B -> result C) (xs : list B) (x : B)
    (e : exn) :
  In x xs -> f x = Raise e -> exists e', mapM f xs = Raise e'.
Proof.
  induction xs as [|y xs IH]; cbn [In mapM]; [easy|].
  intros [->|I] E.
  - rewrite E. cbn. eauto.
  - destruct (f y); cbn [bind]; [|eauto].
    destruct (IH I E) as [e' ->]. cbn. eauto.
Qed.

(** X13: when one of the elements does not resolve to a live handle,
    [filter_displayed_elements] returns no list: it raises, whether or not
    the other elements are displayed. *)
Theorem filter_displayed_elements_unresolved
    (xpath_soup : PageElement -> string) (self : Base)
    (elements : list PageElement) (reverse : bool) (x : PageElement)
    (e : exn) :
  In x elements ->
  find_element_by_xpath (driver self) (xpath_soup x) = Raise e ->
  exists e',
    filter_displayed_elements xpath_soup self elements reverse = Raise e'.
Proof.
  intros I E. unfold filter_displayed_elements.
  destruct (mapM_raises_at
              (fun y => find_element_by_xpath (driver self) (xpath_soup y))
              elements x e I E) as [e' ->].
  cbn. eauto.
Qed.

(** ** Locating by text and by selector *)

Lemma contains_empty (s : string) : PyStr.contains "" s = true.
Proof. destruct s; reflexivity. Qed.

Lemma filter_all {B} (p : B -> bool) (l : list B) :
  (forall x, p x = true) -> filter p l = l.
Proof.
  intros H. induction l as [|x l IH]; cbn [filter]; [reflexivity|].
  now rewrite H, IH.
Qed.

Section LocateMore.

Variable css : string -> option (PageElement -> bool).
Variable self : Base.

Lemma web_scrap_try_congr term term' st opt label main log :
  web_scrap_try css self term st opt label main
  = web_scrap_try css self term' st opt label main ->
  web_scrap css self term st opt label main log
  = web_scrap css self term' st opt label main log.
Proof. unfold web_scrap. now intros ->. Qed.

(** X14: without the label flag, locating by text returns the tags below
    the chosen container that the selector [div > *] matches and whose text
    contains the term, case-insensitively, and nothing else. *)
Theorem text_returns_containing (term : string) (opt main : option string)
    (log : Log) :
  (forall container matches,
      poll_container css (container_selector_of self main) (sources_of self)
      = Ok (Some container) ->
      css "div > *" = Some matches ->
      web_scrap css self term TEXT opt false main log
      = (Ok (map Element
               (filter (text_contains term) (selected matches container))),
         log)) /\
  (forall found log',
      web_scrap css self term TEXT opt false main log = (Ok found, log') ->
      exists container matches,
        poll_container css (container_selector_of self main) (sources_of self)
        = Ok (Some container) /\
        css "div > *" = Some matches /\
        forall i,
          In i found <->
          exists x, i = Element x /\ below x container /\
                    is_tag x = true /\ matches x = true /\
                    text_contains term x = true).
Proof.
  split.
  - intros container matches P C. apply web_scrap_returns.
    split; [|reflexivity]. rewrite web_scrap_try_polled, P. cbn [bind].
    now rewrite (select_ok css _ _ _ C).
  - intros found log' H. apply web_scrap_returns in H as [H _].
    rewrite web_scrap_try_polled in H.
    destruct (poll_container css (container_selector_of self main)
                (sources_of self)) as [[c|]|e]; cbn [bind] in H;
      try discriminate.
    destruct (select css "div > *" c) as [sel|e] eqn:S; cbn [bind] in H;
      [|discriminate].
    injection H as <-. apply select_ok_inv in S as (m & C & ->).
    exists c, m. split; [reflexivity|]. split; [exact C|].
    intros i. rewrite in_map_iff. split.
    + intros (x & <- & I). exists x. split; [reflexivity|].
      apply filter_In in I as [I T]. unfold selected in I.
      apply filter_In in I as [I M]. apply andb_true_iff in M as [M1 M2].
      apply descendants_spec in I as [I _]. auto.
    + intros (x & -> & I & M1 & M2 & T). exists x. split; [reflexivity|].
      apply filter_In. split; [|exact T]. apply filter_In.
      split; [|now rewrite M1, M2].
      apply descendants_spec. split; [exact I|].
      unfold is_tag in M1. destruct (here x) as [nd|]; [eauto | discriminate].
Qed.

(** X15: the empty term filters nothing: as the lower-case form of the
    empty text is the empty text, by text or Mixed the locate call then
    returns every tag of the container that the selector matches. *)
Theorem empty_term_keeps_all (st : ScrapType) (selector : string)
    (opt main : option string) (log : Log) (container : PageElement)
    (matches : PageElement -> bool) :
  (st = TEXT /\ selector = "div > *"%string) \/
  (st = MIXED /\ opt = Some selector) ->
  poll_container css (container_selector_of self main) (sources_of self)
  = Ok (Some container) ->
  css selector = Some matches ->
  web_scrap css self "" st opt false main log
  = (Ok (map Element (selected matches container)), log).
Proof.
  intros S P C. apply web_scrap_returns. split; [|reflexivity].
  rewrite web_scrap_try_polled, P. cbn [bind].
  assert (F : filter (text_contains "") (selected matches container)
              = selected matches container).
  { apply filter_all. intros x. unfold text_contains. cbn [lower].
    apply contains_empty. }
  destruct S as [[-> ->] | [-> ->]];
    rewrite (select_ok css _ _ _ C); cbn [bind]; now rewrite F.
Qed.

(** X16: locating by text or Mixed looks at the term only through
    [term.lower()]: two terms with the same lower-case form, such as the
    same word in different cases, give the same outcome and the same
    log. *)
Theorem text_search_ignores_case (term term' : string) (st : ScrapType)
    (opt main : option string) (log : Log) :
  st = TEXT \/ st = MIXED ->
  lower term = lower term' ->
  web_scrap css self term st opt false main log
  = web_scrap css self term' st opt false main log.
Proof.
  intros S L. apply web_scrap_try_congr. rewrite !web_scrap_try_polled.
  assert (F : forall l, filter (text_contains term) l
                        = filter (text_contains term') l).
  { intros l. apply filter_ext. intros x. unfold text_contains.
    now rewrite L. }
  destruct (poll_container css _ _) as [[c|]|e]; cbn [bind]; try reflexivity.
  destruct S as [-> | ->].
  - destruct (select css "div > *" c); cbn [bind]; now rewrite ?F.
  - destruct opt as [selector|]; [|reflexivity].
    destruct (select css selector c); cbn [bind]; now rewrite ?F.
Qed.

(** X17: locating by selector returns tags below the chosen container that
    match the selector, and all of them. *)
Theorem css_locate_scoped (term : string) (opt : option string)
    (label : bool) (main : option string) (log log' : Log)
    (found : list item) :
  web_scrap css self term CSS_SELECTOR opt label main log = (Ok found, log') ->
  exists container matches,
    poll_container css (container_selector_of self main) (sources_of self)
    = Ok (Some container) /\
    css term = Some matches /\
    forall i,
      In i found <->
      exists x, i = Element x /\ below x container /\
                is_tag x = true /\ matches x = true.
Proof.
  intros H. apply web_scrap_returns in H as [H _].
  rewrite web_scrap_try_polled in H.
  destruct (poll_container css (container_selector_of self main)
              (sources_of self)) as [[c|]|e]; cbn [bind] in H;
    try discriminate.
  destruct (select css term c) as [sel|e] eqn:S; cbn [bind] in H;
    [|discriminate].
  injection H as <-. apply select_ok_inv in S as (m & C & ->).
  exists c, m. split; [reflexivity|]. split; [exact C|].
  intros i. rewrite in_map_iff. split.
  - intros (x & <- & I). exists x. split; [reflexivity|].
    unfold selected in I.
    apply filter_In in I as [I M]. apply andb_true_iff in M as [M1 M2].
    apply descendants_spec in I as [I _]. auto.
  - intros (x & -> & I & M1 & M2). exists x. split; [reflexivity|].
    apply filter_In. split; [|now rewrite M1, M2].
    apply descendants_spec. split; [exact I|].
    unfold is_tag in M1. destruct (here x) as [nd|]; [eauto | discriminate].
Qed.

End LocateMore.

(** ** [find_first_div_parent] *)

(** X18: [find_first_div_parent] returns the nearest div among the element
    and its ancestors, and [None] exactly when none of them is a div; on a
    div it returns the div itself. *)
Theorem find_first_div_parent_nearest (element : PageElement) :
  (forall d, find_first_div_parent element = Some d <-> nearest_div d element)
  /\
  (find_first_div_parent element = None <-> no_div_above element) /\
  (is_div element = true -> find_first_div_parent element = Some element).
Proof.
  pose proof (find_first_div_parent_spec element) as H.
  split; [|split].
  - intros d. destruct (find_first_div_parent element) as [d'|].
    + split; [now intros [= <-]|].
      intros N. f_equal. exact (nearest_div_unique d' d element H N).
    + split; [discriminate|]. intros (A & D & _). now rewrite (H d A) in D.
  - destruct (find_first_div_parent element) as [d'|].
    + split; [discriminate|]. intros N. destruct H as (A & D & _).
      now rewrite (N d' A) in D.
    + now split.
  - intros D. unfold find_first_div_parent.
    cbn [find_first_div_parent_loop]. now rewrite D.
Qed.

(** ** The report of a failed test *)

Lemma fold_left_messages (errors : list string) (start : string) :
  fold_left (fun m field_msg => (m ++ " " ++ field_msg)%string) errors start
  = (start
     ++ fold_right (fun field_msg rest => (" " ++ field_msg ++ rest)%string)
                   "" errors)%string.
Proof.
  revert start; induction errors as [|e errors IH]; intros start;
    cbn [fold_left fold_right].
  - now rewrite append_empty_r.
  - rewrite IH. now rewrite !append_assoc.
Qed.

Lemma messages_contain (errors : list string) (e : string) :
  In e errors ->
  exists before after,
    fold_right (fun field_msg rest => (" " ++ field_msg ++ rest)%string)
               "" errors
    = (before ++ e ++ after)%string.
Proof.
  induction errors as [|x errors IH]; [easy|]. intros [->|I].
  - cbn [fold_right]. eexists " "%string, _. reflexivity.
  - destruct (IH I) as (before & after & E). cbn [fold_right]. rewrite E.
    exists (" " ++ x ++ before)%string, after. now rewrite !append_assoc.
Qed.

(** X20: when errors were recorded, the line that [assert_result] logs as
    failed, and the message of the assertion failure it raises, contain every
    recorded error message. *)
Theorem assert_result_reports_errors (self : Base) (f : string)
    (expected : bool) (errors : list string) (log : Log) :
  test_function self = Some f ->
  errors <> [] ->
  exists line,
    snd (snd (assert_result self expected errors log))
    = log ++ [new_line false line; save_file] /\
    (exists text, fst (assert_result self expected errors log)
                  = Raise (mk_exn AssertionError (text ++ line)%string)) /\
    forall e, In e errors -> PyStr.contains e line = true.
Proof.
  intros F N. unfold assert_result. rewrite F.
  destruct errors as [|x errors]; [now elim N|].
  exists (fold_left (fun m field_msg => (m ++ " " ++ field_msg)%string)
                    (x :: errors)
                    (last (PyStr.split "_" f) "" ++ " - ")%string).
  cbn [fst snd]. split; [now rewrite <- app_assoc|]. split.
  - destruct expected;
      [exists "False is not true : "%string
      | exists "True is not false : "%string]; reflexivity.
  - intros e I. rewrite fold_left_messages.
    destruct (messages_contain (x :: errors) e I) as (before & after & ->).
    rewrite <- append_assoc. apply contains_append.
Qed.

End Builtins.

(** * Runs

    The properties at work on pages, styles and test cases, with the
    builtins taken on plain text. *)

Arguments compare_field_values {value} str field user_value captured_value
  message errors.

Lemma search_zindex_spec_witness :
  search_zindex ascii_int (styled "div" "color:red;z-index: 20 ;top:0") = Ok 20.
Proof.
  refine (proj1 (proj1 (proj2 (proj2 (proj2
            (search_zindex_spec ascii_int
               (styled "div" "color:red;z-index: 20 ;top:0")))))
            [("style", "color:red;z-index: 20 ;top:0")]
            "color:red;" " 20 " ";top:0" _ _ _ _ _ _) 20 _);
    try reflexivity.
  right. left. now exists "top:0".
Defined.

(** C2 as stated fails: a style whose z-index is [auto] makes
    [search_zindex ascii_int] raise instead of giving 0. *)
Lemma search_zindex_auto_raises :
  ascii_int (PyStr.strip "auto") = None /\
  search_zindex ascii_int (styled "div" "z-index:auto;")
  = Raise (mk_exn ValueError
             "invalid literal for int() with base 10: 'auto'") /\
  search_zindex ascii_int (styled "div" "z-index:auto;") <> Ok 0.
Proof.
  split; [vm_compute; reflexivity | split; [vm_compute; reflexivity | ]].
  vm_compute; discriminate.
Qed.

Lemma zindex_sort_ranking_witness :
  exists ranked,
    zindex_sort ascii_int [styled "a" "z-index:10;"; styled "b" "z-index:20;";
                 styled "c" "z-index:10;"; styled "d" ""] true = Ok ranked /\
    StronglySorted (fun a b => zindex_of ascii_int a >= zindex_of ascii_int b) ranked.
Proof.
  destruct (proj1 (zindex_sort_ranking ascii_int
                     [styled "a" "z-index:10;"; styled "b" "z-index:20;";
                      styled "c" "z-index:10;"; styled "d" ""]) eq_refl)
    as (ranked & E & S & _).
  exists ranked. now split.
Defined.

(** C3 as stated fails: ranking a list that holds a candidate with
    [z-index:auto] returns no list. *)
Lemma zindex_sort_ranking_raises :
  zindex_sort ascii_int [styled "div" "z-index:1;"; styled "div" "z-index:auto;"] true
  = Raise (mk_exn ValueError
             "invalid literal for int() with base 10: 'auto'").
Proof. reflexivity. Qed.

Lemma zindex_sort_permutation_witness :
  Permutation
    [styled "a" "z-index:3;"; styled "b" "z-index:1;"; styled "c" "z-index:2"]
    [styled "b" "z-index:1;"; styled "c" "z-index:2"; styled "a" "z-index:3;"].
Proof.
  apply (proj1 (zindex_sort_permutation ascii_int
                  [styled "a" "z-index:3;"; styled "b" "z-index:1;";
                   styled "c" "z-index:2"] false)).
  reflexivity.
Defined.

(** C9 as stated fails: on an element with [z-index:auto], [zindex_sort ascii_int]
    returns nothing, for either value of [reverse]. *)
Lemma zindex_sort_no_permutation :
  zindex_sort ascii_int [styled "span" "z-index:auto"] false
  = Raise (mk_exn ValueError
             "invalid literal for int() with base 10: 'auto'") /\
  zindex_sort ascii_int [styled "span" "z-index:auto"] true
  = Raise (mk_exn ValueError
             "invalid literal for int() with base 10: 'auto'").
Proof. split; reflexivity. Qed.

Lemma find_label_element_spec_witness :
  find_label_element "Name" (mk_elt label_page [0%nat])
  = [mk_elt label_page [0%nat; 2%nat]].
Proof.
  refine (proj1 (proj2 (proj2 (find_label_element_spec
                                 "Name" (mk_elt label_page [0%nat]))
                          (mk_elt label_page [0%nat; 0%nat; 0%nat]) []
                          eq_refl)
                   (mk_elt label_page [0%nat; 0%nat]) _) _ _).
  - exact (find_first_div_parent_spec
             (mk_elt label_page [0%nat; 0%nat; 0%nat])).
  - exact (find_next_sibling_spec (mk_elt label_page [0%nat; 0%nat])).
Defined.

(** C4 as stated fails: the sibling right after the div of the label is a
    span, not an input, and the lookup still returns the input that comes
    after the span. *)
Lemma find_label_element_skips_siblings :
  name (sibling_at (mk_elt label_page [0%nat; 0%nat]) 1) = Some "span"%string /\
  find_label_element "Name" (mk_elt label_page [0%nat])
  = [mk_elt label_page [0%nat; 2%nat]].
Proof. split; reflexivity. Qed.


Lemma label_lookup_at_most_one_witness :
  (length [Element (mk_elt label_page [0%nat; 2%nat])] <= 1)%nat.
Proof.
  apply (proj2 (label_lookup_at_most_one ascii_int latin_lower simple_css
                  (test_base label_page (Ok PNone)) "Name"
                  (mk_elt label_page [0%nat]))
               None (Some "body") [] _ []).
  reflexivity.
Defined.

(** C8 fails on the code: the page has a dialog and a button outside it.
    Locating the button by selector inside the dialog finds nothing, and
    the existence check for the same selector and container answers true,
    because it asks the driver for the whole live document. *)
Theorem css_exists_not_scoped :
  web_scrap ascii_int latin_lower simple_css (test_base dialog_page (Ok PNone)) "button"
            CSS_SELECTOR None false (Some ".tmodaldialog") []
  = (Ok [], []) /\
  element_exists ascii_int latin_lower simple_css path_xpath (test_base dialog_page (Ok PNone))
                 "button" CSS_SELECTOR 0 None (Some ".tmodaldialog") []
  = (Ok true, []).
Proof. split; reflexivity. Qed.

Lemma failure_reporting_witness :
  web_scrap ascii_int latin_lower simple_css (test_base plain_page (Ok PNone)) "button"
            CSS_SELECTOR None false (Some ".tmodaldialog") []
  = (Raise (mk_exn AssertionError
              "False is not true : CT001 - Couldn't find container"),
     [new_line false "CT001 - Couldn't find container"; save_file]).
Proof.
  exact (proj1 (proj2 (failure_reporting ascii_int latin_lower simple_css path_xpath
                         (test_base plain_page (Ok PNone)) "test_CT001"
                         "button" CSS_SELECTOR None false
                         (Some ".tmodaldialog") [] eq_refl))
               eq_refl).
Defined.

(** C7 as stated fails: on a page without a dialog the container is
    missing, and the existence check by selector answers false: nothing is
    raised and nothing is logged. *)
Lemma exists_missing_container_no_failure :
  topmost_container ascii_int simple_css ".tmodaldialog" plain_page = Ok None /\
  element_exists ascii_int latin_lower simple_css path_xpath (test_base plain_page (Ok PNone))
                 "button" CSS_SELECTOR 0 None (Some ".tmodaldialog") []
  = (Ok false, []).
Proof. split; reflexivity. Qed.

Lemma element_exists_counts_witness :
  element_exists ascii_int latin_lower simple_css path_xpath (test_base dialog_page (Ok PNone))
                 "a" MIXED 2 (Some ".tsay") (Some ".tmodaldialog") []
  = (Ok true, []).
Proof.
  exact (proj1 (element_exists_counts ascii_int latin_lower simple_css path_xpath
                  (test_base dialog_page (Ok PNone)) "a" 2 (Some ".tsay")
                  (Some ".tmodaldialog") [] ltac:(lia))
               MIXED
               [Element (mk_elt dialog_page [0%nat; 0%nat; 0%nat]);
                Element (mk_elt dialog_page [0%nat; 0%nat; 2%nat])]
               [] (or_intror eq_refl) eq_refl).
Defined.

(** C1 as stated fails: the script returns a list of one element, so the
    script strategy produces one match, and the existence check at position
    2 is true all the same. *)
Lemma script_exists_ignores_position :
  web_scrap ascii_int latin_lower simple_css (test_base plain_page (Ok (PList [PInt 7])))
            "return [7]" SCRIPT None false (Some "body") []
  = (Ok [Value (PInt 7)], []) /\
  element_exists ascii_int latin_lower simple_css path_xpath
                 (test_base plain_page (Ok (PList [PInt 7])))
                 "return [7]" SCRIPT 2 None (Some "body") []
  = (Ok true, []).
Proof. split; reflexivity. Qed.

Lemma filter_displayed_elements_spec_witness :
  exists kept,
    filter_displayed_elements ascii_int path_xpath (test_base dialog_page (Ok PNone))
      [mk_elt dialog_page [0%nat; 1%nat]; mk_elt dialog_page [0%nat; 0%nat]]
      true
    = Ok kept /\
    StronglySorted (in_order (search_zindex ascii_int) true) kept.
Proof.
  destruct (filter_displayed_elements_spec ascii_int path_xpath
              (test_base dialog_page (Ok PNone))
              [mk_elt dialog_page [0%nat; 1%nat];
               mk_elt dialog_page [0%nat; 0%nat]] true)
    as (kept & E & _ & S & _).
  - intros x [<- | [<- | []]]; eexists; reflexivity.
  - intros x [<- | [<- | []]] _; reflexivity.
  - exists kept. now split.
Defined.

(** C6 as stated fails: called with its default [reverse=False] on a
    displayed dialog of z-index 20 and a displayed button without z-index,
    visibility filtering puts the button first: the list comes back by
    ascending z-index. *)
Lemma filter_displayed_default_ascending :
  filter_displayed_elements ascii_int path_xpath (test_base dialog_page (Ok PNone))
    [mk_elt dialog_page [0%nat; 0%nat]; mk_elt dialog_page [0%nat; 1%nat]]
    false
  = Ok [mk_elt dialog_page [0%nat; 1%nat]; mk_elt dialog_page [0%nat; 0%nat]]
  /\ zindex_of ascii_int (mk_elt dialog_page [0%nat; 1%nat]) = 0
  /\ zindex_of ascii_int (mk_elt dialog_page [0%nat; 0%nat]) = 20.
Proof. split; [reflexivity | split; reflexivity]. Qed.

Lemma compare_field_values_padding_witness :
  compare_field_values (fun s : string => s) "A1_NOME"
                       (nbsp ++ "JOAO")%string "JOAO " "different" []
  = [].
Proof.
  apply (proj1 (compare_field_values_padding string (fun s => s) "A1_NOME"
                  (nbsp ++ "JOAO")%string "JOAO " "different" [])).
  exists "JOAO"%string, nbsp, ""%string, ""%string, " "%string.
  assert (S : forall w, In w PyStr.whitespace -> blank w).
  { intros w I. rewrite <- (append_empty_r w).
    apply blank_cons; [exact I | apply blank_nil]. }
  split; [apply S; do 11 right; left; reflexivity|].
  split; [constructor|]. split; [constructor|].
  split; [apply S; do 9 right; left; reflexivity|].
  split; reflexivity.
Defined.

Lemma assert_result_verdict_witness :
  fst (assert_result (test_base plain_page (Ok PNone)) false [] []) = Ok tt.
Proof.
  apply (proj1 (assert_result_verdict (test_base plain_page (Ok PNone))
                  "test_CT001" false [] [] eq_refl)).
  reflexivity.
Defined.

Lemma compare_then_AssertTrue_witness :
  fst (AssertTrue (test_base plain_page (Ok PNone))
         (compare_field_values (fun s : string => s) "A1_COD"
                               (nbsp ++ "000001")%string "000001 "
                               "different" [])
         []) = Ok tt.
Proof.
  apply (compare_then_AssertTrue string (fun s => s)
           (test_base plain_page (Ok PNone)) "test_CT001" "A1_COD"
           (nbsp ++ "000001")%string "000001 " "different" [] eq_refl).
  vm_compute. reflexivity.
Defined.

Lemma log_error_tag_witness :
  exists tag,
    log_error (test_base plain_page (Ok PNone)) "Element was not found" true []
    = (mk_exn AssertionError
         ("False is not true : " ++ tag ++ " - Element was not found")%string,
       [new_line false (tag ++ " - Element was not found")%string;
        save_file]) /\
    PyStr.has_char "_" tag = false.
Proof.
  destruct (log_error_tag (test_base plain_page (Ok PNone)) "test_CT001"
              "Element was not found" [] eq_refl) as (tag & E & N & _).
  exists tag. now split.
Defined.

Lemma select_combo_first_match_witness :
  String.prefix "Option 1" "Option 10" = true.
Proof.
  apply (select_combo_first_match resolving_base
           (fun _ => Ok ["Other"; "Option 10"; "Option 1"])
           (fun _ _ => Ok tt) "combo" "Option 1" "Option 10").
  reflexivity.
Defined.

Lemma topmost_container_highest_witness :
  exists candidates before after,
    select simple_css ".tmodaldialog" (mk_elt stacked_page []) = Ok candidates /\
    candidates = before ++ mk_elt stacked_page [0%nat; 1%nat] :: after /\
    Forall (fun x => zindex_of ascii_int x < 20) before /\
    Forall (fun x => zindex_of ascii_int x <= 20) after.
Proof.
  exact (topmost_container_highest ascii_int simple_css ".tmodaldialog" stacked_page
           (mk_elt stacked_page [0%nat; 1%nat]) eq_refl).
Defined.

Lemma topmost_container_none_witness :
  topmost_container ascii_int simple_css ".tmodaldialog" loading_page = Ok None.
Proof.
  apply (proj2 (topmost_container_none ascii_int simple_css ".tmodaldialog"
                  loading_page)).
  reflexivity.
Defined.

Lemma poll_container_first_witness :
  poll_container ascii_int simple_css ".tmodaldialog"
                 [loading_page; loading_page; stacked_page; loading_page]
  = Ok (Some (mk_elt stacked_page [0%nat; 1%nat])).
Proof.
  apply (proj2 (proj1 (poll_container_first ascii_int simple_css ".tmodaldialog"
                         [loading_page; loading_page; stacked_page;
                          loading_page])
                      (mk_elt stacked_page [0%nat; 1%nat]))).
  exists [loading_page; loading_page], stacked_page, [loading_page].
  split; [reflexivity|]. split; [|reflexivity].
  repeat constructor.
Defined.

Lemma zindex_sort_idempotent_witness :
  zindex_sort ascii_int [styled "b" "z-index:20;"; styled "a" "z-index:10;";
               styled "c" "z-index:10;"] true
  = Ok [styled "b" "z-index:20;"; styled "a" "z-index:10;";
        styled "c" "z-index:10;"].
Proof.
  apply (zindex_sort_idempotent ascii_int
           [styled "a" "z-index:10;"; styled "b" "z-index:20;";
            styled "c" "z-index:10;"]
           _ true).
  reflexivity.
Defined.

Lemma zindex_sort_default_ascending_witness :
  exists sorted,
    zindex_sort ascii_int [styled "b" "z-index:20;"; styled "a" "z-index:10;";
                 styled "c" ""] false = Ok sorted /\
    StronglySorted (fun a b => zindex_of ascii_int a <= zindex_of ascii_int b) sorted.
Proof.
  destruct (zindex_sort_default_ascending ascii_int
              [styled "b" "z-index:20;"; styled "a" "z-index:10;";
               styled "c" ""] eq_refl) as (sorted & E & S & _).
  exists sorted. now split.
Defined.

Lemma element_exists_negative_position_witness :
  element_exists ascii_int latin_lower simple_css path_xpath (test_base dialog_page (Ok PNone))
                 "no such text" MIXED (-1) (Some ".tsay")
                 (Some ".tmodaldialog") []
  = (Ok true, []).
Proof.
  apply (element_exists_negative_position ascii_int latin_lower simple_css path_xpath
           (test_base dialog_page (Ok PNone)) "no such text" MIXED (-1)
           (Some ".tsay") (Some ".tmodaldialog") [] [] []);
    [lia | now right | reflexivity].
Defined.

Lemma element_exists_smaller_position_witness :
  element_exists ascii_int latin_lower simple_css path_xpath (test_base dialog_page (Ok PNone))
                 "a" MIXED 1 (Some ".tsay") (Some ".tmodaldialog") []
  = (Ok true, []).
Proof.
  apply (element_exists_smaller_position ascii_int latin_lower simple_css path_xpath
           (test_base dialog_page (Ok PNone)) "a" MIXED 1 2 (Some ".tsay")
           (Some ".tmodaldialog") [] []); [lia | reflexivity].
Defined.

Lemma filter_displayed_elements_unresolved_witness :
  exists e',
    filter_displayed_elements ascii_int path_xpath (test_base plain_page (Ok PNone))
      [mk_elt plain_page [0%nat]; mk_elt dialog_page [0%nat; 0%nat; 2%nat]]
      false
    = Raise e'.
Proof.
  apply (filter_displayed_elements_unresolved ascii_int path_xpath
           (test_base plain_page (Ok PNone)) _ false
           (mk_elt dialog_page [0%nat; 0%nat; 2%nat])
           (mk_exn WebDriverException "no such element"));
    [now right; left | reflexivity].
Defined.

Lemma text_returns_containing_witness :
  web_scrap ascii_int latin_lower any_tag_css (test_base dialog_page (Ok PNone)) "ADDRESS" TEXT
            None false (Some ".tmodaldialog") []
  = (Ok [Element (mk_elt dialog_page [0%nat; 0%nat; 2%nat])], []).
Proof.
  exact (proj1 (text_returns_containing ascii_int latin_lower any_tag_css
                  (test_base dialog_page (Ok PNone)) "ADDRESS" None
                  (Some ".tmodaldialog") [])
               (mk_elt dialog_page [0%nat; 0%nat]) (fun _ => true)
               eq_refl eq_refl).
Defined.

Lemma empty_term_keeps_all_witness :
  web_scrap ascii_int latin_lower simple_css (test_base dialog_page (Ok PNone)) "" MIXED
            (Some ".tsay") false (Some ".tmodaldialog") []
  = (Ok [Element (mk_elt dialog_page [0%nat; 0%nat; 0%nat]);
         Element (mk_elt dialog_page [0%nat; 0%nat; 2%nat])], []).
Proof.
  destruct (simple_css ".tsay") as [m|] eqn:C; [|discriminate C].
  rewrite (empty_term_keeps_all ascii_int latin_lower simple_css
             (test_base dialog_page (Ok PNone)) MIXED ".tsay" (Some ".tsay")
             (Some ".tmodaldialog") [] (mk_elt dialog_page [0%nat; 0%nat]) m
             (or_intror (conj eq_refl eq_refl)) eq_refl C).
  injection C as <-. reflexivity.
Defined.

Lemma text_search_ignores_case_witness :
  web_scrap ascii_int latin_lower simple_css
            (test_base accented_page (Ok PNone)) "joão" MIXED
            (Some ".tsay") false (Some ".tmodaldialog") []
  = web_scrap ascii_int latin_lower simple_css
              (test_base accented_page (Ok PNone)) "JOÃO" MIXED
              (Some ".tsay") false (Some ".tmodaldialog") [].
Proof.
  apply (text_search_ignores_case ascii_int latin_lower simple_css
           (test_base accented_page (Ok PNone)) "joão" "JOÃO" MIXED
           (Some ".tsay") (Some ".tmodaldialog") []).
  - right. reflexivity.
  - vm_compute. reflexivity.
Defined.

Lemma css_locate_scoped_witness :
  exists container matches,
    poll_container ascii_int simple_css ".tmodaldialog"
                   (sources_of (test_base dialog_page (Ok PNone)))
    = Ok (Some container) /\
    simple_css "input" = Some matches.
Proof.
  destruct (css_locate_scoped ascii_int latin_lower simple_css (test_base dialog_page (Ok PNone))
              "input" None false (Some ".tmodaldialog") [] []
              [Element (mk_elt dialog_page [0%nat; 0%nat; 1%nat])] eq_refl)
    as (container & matches & P & C & _).
  exists container, matches. now split.
Defined.

Lemma label_pattern_iff_witness :
  label_pattern "Name" ("Name*" ++ nbsp) = true.
Proof.
  apply (proj2 (label_pattern_iff "Name" ("Name*" ++ nbsp))).
  exists "*"%string, nbsp. split; [reflexivity|].
  split; [now right|]. apply spaces_one.
  do 11 right. left. reflexivity.
Defined.

Lemma find_first_div_parent_nearest_witness :
  find_first_div_parent (mk_elt dialog_page [0%nat; 0%nat])
  = Some (mk_elt dialog_page [0%nat; 0%nat]).
Proof.
  apply (proj2 (proj2 (find_first_div_parent_nearest
                         (mk_elt dialog_page [0%nat; 0%nat])))).
  reflexivity.
Defined.

Lemma assert_result_reports_errors_witness :
  exists line,
    snd (snd (assert_result (test_base plain_page (Ok PNone)) true
                            ["Field A1_COD differs"; "Field A1_NOME differs"]
                            []))
    = [new_line false line; save_file] /\
    PyStr.contains "Field A1_NOME differs" line = true.
Proof.
  destruct (assert_result_reports_errors (test_base plain_page (Ok PNone))
              "test_CT001" true
              ["Field A1_COD differs"; "Field A1_NOME differs"] []
              eq_refl ltac:(discriminate)) as (line & E & _ & C).
  exists line. split; [exact E|]. apply C. now right; left.
Defined.

(** ** Accents, no-break spaces and a second marker *)

Example search_zindex_second_marker :
  search_zindex ascii_int (styled "div" "z-index:1z-index:2;") = Ok 1.
Proof. vm_compute. reflexivity. Qed.

Example find_label_element_no_break_space :
  find_label_element "João" (mk_elt accented_page [0%nat; 0%nat])
  = [mk_elt accented_page [0%nat; 0%nat; 1%nat]].
Proof. vm_compute. reflexivity. Qed.

Example mixed_finds_accented_label :
  web_scrap ascii_int latin_lower simple_css
            (test_base accented_page (Ok PNone)) "JOÃO" MIXED
            (Some ".tsay") false (Some ".tmodaldialog") []
  = (Ok [Element (mk_elt accented_page [0%nat; 0%nat; 2%nat])], []).
Proof. vm_compute. reflexivity. Qed.
